(** * nlp2phenome: a shallow embedding of [nlp_to_phenome.py]

    The development follows the Python module class by class: the
    annotation classes ([BasicAnn] and its subclasses), the gold document
    [EDIRDoc], the SemEHR document [SemEHRAnnDoc], [Concept2Mapping],
    [CustomisedRecoginiser], [LabelModel] and [LabelPerformance].

    Conventions of the embedding.
    - A Python [int] is a [Z]; a Python [float] is a rational [Q], compared
      with [==] (two floats are equal when they denote the same number).
    - A [dict] is a [gmap], a [set] a [gset]; the order in which a dict is
      iterated is the order of [map_to_list].
    - A method that mutates [self] returns the new object; a method that can
      raise returns a [result].
    - Two objects are the same object when their fields agree: [load_anns]
      gives every annotation of a kind an id of its own. *)

From Stdlib Require Import ZArith QArith Qabs List String Ascii Bool Lia.
From stdpp Require Import gmap strings list fin_maps pretty sorting.

Local Open Scope string_scope.
Local Open Scope list_scope.
Local Open Scope Z_scope.

(** ** Exceptions *)

Inductive exn : Type :=
| ZeroDivisionError
| TypeError
| KeyError
| IndexError
| ValueError
| ExternalError.

Inductive result (A : Type) : Type :=
| Ok (a : A)
| Raise (e : exn).

Arguments Ok {A} a.
Arguments Raise {A} e.

(** Sequencing: the first exception raised ends the computation. *)
Global Instance result_ret : MRet result := fun A a => Ok a.

Global Instance result_bind : MBind result := fun A B k r =>
  match r with
  | Ok a => k a
  | Raise e => Raise e
  end.

Definition is_ok {A : Type} (r : result A) : bool :=
  match r with
  | Ok _ => true
  | Raise _ => false
  end.

(** A [for] loop whose body threads a state and may raise. *)
Fixpoint for_each {A S : Type} (body : S -> A -> result S) (xs : list A) (s : S)
  : result S :=
  match xs with
  | [] => Ok s
  | x :: rest => s' ← body s x; for_each body rest s'
  end.

(** ** Strings *)

Definition lower_ascii (c : ascii) : ascii :=
  let n := nat_of_ascii c in
  if (Nat.leb 65 n && Nat.leb n 90)%bool then ascii_of_nat (n + 32) else c.

(** [s.lower()] *)
Fixpoint lower (s : string) : string :=
  match s with
  | EmptyString => EmptyString
  | String c rest => String (lower_ascii c) (lower rest)
  end.

(** [s.startswith(p)] *)
Definition startswith (s p : string) : bool := String.prefix p s.

(** [p in s] for strings. *)
Fixpoint contains (p s : string) : bool :=
  if String.prefix p s then true
  else match s with
       | EmptyString => false
       | String _ rest => contains p rest
       end.

(** [s.replace(old, new)] for a non-empty [old]: occurrences are replaced
    from the left and do not overlap. [skip] counts the characters of an
    occurrence still to be dropped. *)
Fixpoint replace_from (old new : string) (skip : nat) (s : string) : string :=
  match s with
  | EmptyString => EmptyString
  | String c rest =>
      match skip with
      | S k => replace_from old new k rest
      | O =>
          if String.prefix old s
          then new +:+ replace_from old new (Nat.pred (String.length old)) rest
          else String c (replace_from old new O rest)
      end
  end.

Definition replace (old new s : string) : string := replace_from old new O s.

(** [sep.join(xs)] *)
Fixpoint join (sep : string) (xs : list string) : string :=
  match xs with
  | [] => ""
  | [x] => x
  | x :: rest => x +:+ sep +:+ join sep rest
  end.

(** ** Annotations *)

(** An annotation id: [-1] on construction, an [int] for a gold entity, a
    string such as [cui-3] for a SemEHR annotation. *)
Inductive ann_id : Type :=
| IntId (n : Z)
| StrId (s : string).

Global Instance ann_id_eq_dec : EqDecision ann_id.
Proof. solve_decision. Defined.

(** class BasicAnn *)
Record BasicAnn : Type := mkBasicAnn {
  ba_str : string;
  ba_start : Z;
  ba_end : Z;
  ba_id : ann_id
}.

Global Instance BasicAnn_eq_dec : EqDecision BasicAnn.
Proof. solve_decision. Defined.

(** [BasicAnn.__init__] *)
Definition new_BasicAnn (str : string) (start end_ : Z) : BasicAnn :=
  mkBasicAnn str start end_ (IntId (-1)).

Definition set_id (a : BasicAnn) (i : ann_id) : BasicAnn :=
  mkBasicAnn (ba_str a) (ba_start a) (ba_end a) i.

(** The subclasses of [BasicAnn] inherit [str], [start], [end], [id],
    [overlap] and [is_larger]; [Ann] is that interface. *)
Class Ann (A : Type) : Type := as_basic : A -> BasicAnn.

Global Instance BasicAnn_Ann : Ann BasicAnn := fun a => a.

Section span.
Context {A B : Type} `{Ann A} `{Ann B}.

Definition str (a : A) : string := ba_str (as_basic a).
Definition start (a : A) : Z := ba_start (as_basic a).
Definition end_ (a : A) : Z := ba_end (as_basic a).
Definition id (a : A) : ann_id := ba_id (as_basic a).

(** [BasicAnn.overlap] *)
Definition overlap (self : A) (other_ann : B) : bool :=
  if ((ba_start (as_basic other_ann) <=? ba_start (as_basic self))
        && (ba_start (as_basic self) <=? ba_end (as_basic other_ann))
      || (ba_start (as_basic other_ann) <=? ba_end (as_basic self))
        && (ba_end (as_basic self) <=? ba_end (as_basic other_ann)))%bool
  then true
  else false.

(** [BasicAnn.is_larger] *)
Definition is_larger (self : A) (other_ann : B) : bool :=
  ((ba_start (as_basic self) <=? ba_start (as_basic other_ann))
   && (ba_end (as_basic self) >=? ba_end (as_basic other_ann))
   && negb ((ba_start (as_basic self) =? ba_start (as_basic other_ann))
            && (ba_end (as_basic self) =? ba_end (as_basic other_ann))))%bool.

End span.

(** class EDIRAnn *)
Record EDIRAnn : Type := mkEDIRAnn {
  ed_basic : BasicAnn;
  ed_type : string;
  ed_negated : bool
}.

Global Instance EDIRAnn_eq_dec : EqDecision EDIRAnn.
Proof. solve_decision. Defined.

Global Instance EDIRAnn_Ann : Ann EDIRAnn := ed_basic.

(** [EDIRAnn.__init__] *)
Definition new_EDIRAnn (str : string) (start end_ : Z) (type : string) : EDIRAnn :=
  mkEDIRAnn (new_BasicAnn str start end_) type false.

(** [EDIRAnn.label] *)
Definition label (a : EDIRAnn) : string :=
  let t := ed_type a in
  if ed_negated a then "neg_" +:+ t else t.

(** class ContextedAnn *)
Record ContextedAnn : Type := mkContextedAnn {
  ca_basic : BasicAnn;
  ca_negation : string;
  ca_temporality : string;
  ca_experiencer : string
}.

Global Instance ContextedAnn_eq_dec : EqDecision ContextedAnn.
Proof. solve_decision. Defined.

(** class PhenotypeAnn *)
Record PhenotypeAnn : Type := mkPhenotypeAnn {
  ph_ctx : ContextedAnn;
  major_type : string;
  minor_type : string
}.

Global Instance PhenotypeAnn_eq_dec : EqDecision PhenotypeAnn.
Proof. solve_decision. Defined.

Global Instance PhenotypeAnn_Ann : Ann PhenotypeAnn := fun a => ca_basic (ph_ctx a).

(** class SemEHRAnn *)
Record SemEHRAnn : Type := mkSemEHRAnn {
  se_ctx : ContextedAnn;
  cui : string;
  sty : string;
  pref : string;
  ann_type : string
}.

Global Instance SemEHRAnn_eq_dec : EqDecision SemEHRAnn.
Proof. solve_decision. Defined.

Global Instance SemEHRAnn_Ann : Ann SemEHRAnn := fun a => ca_basic (se_ctx a).

(** A list such as [anns + phenotypes] holds objects of both SemEHR
    classes. *)
Inductive Mention : Type :=
| UMLS (a : SemEHRAnn)
| Phenotype (a : PhenotypeAnn).

Global Instance Mention_eq_dec : EqDecision Mention.
Proof. solve_decision. Defined.

Definition contexted (m : Mention) : ContextedAnn :=
  match m with
  | UMLS a => se_ctx a
  | Phenotype a => ph_ctx a
  end.

Global Instance Mention_Ann : Ann Mention := fun m => ca_basic (contexted m).

(** [ann.negation] *)
Definition negation (m : Mention) : string := ca_negation (contexted m).

(** ** The gold-standard document *)

(** What [EDIRDoc] reads of the parsed XML: the [id] of every [w] element
    under a processed sentence ([None] when the attribute is missing, the
    number after the first character otherwise), and the [ent] elements of
    the standoff block. The text of a [part] element is [None] when the
    element has none. *)
Record XmlPart : Type := mkXmlPart {
  part_sw : Z;
  part_text : option string
}.

Record XmlEnt : Type := mkXmlEnt {
  ent_type : option string;
  ent_parts : list XmlPart
}.

Record EDIRDoc : Type := mkEDIRDoc {
  xml_words : list (option Z);
  xml_ents : list XmlEnt
}.

(** The loop of [EDIRDoc.get_word_offset_start]: the id of the first word
    that has one, [-1] when there is none. *)
Fixpoint first_word_id (ws : list (option Z)) : Z :=
  match ws with
  | [] => -1
  | None :: rest => first_word_id rest
  | Some n :: _ => n
  end.

(** [EDIRDoc.get_word_offset_start], as [get_ess_entities] sees it.
    [load] has already run the method once and stored the offset; this call
    returns the stored offset when it is not negative, and otherwise runs to
    the end of the method, which has no [return] ([None]). *)
Definition get_word_offset_start (d : EDIRDoc) : option Z :=
  let stored := first_word_id (xml_words d) in
  if stored >=? 0 then Some stored else None.

(** [' '.join([part.text for part in ...])]: joining a [None] raises. *)
Definition joined_text (ps : list XmlPart) : result string :=
  match mapM part_text ps with
  | Some texts => Ok (join " " texts)
  | None => Raise TypeError
  end.

(** The loop over the parts of one entity: the last part decides the
    span. Subtracting [None] raises, and so does the length of [None]. *)
Fixpoint ent_span (offset_start : option Z) (ps : list XmlPart) (cur : Z * Z)
  : result (Z * Z) :=
  match ps with
  | [] => Ok cur
  | p :: rest =>
      match offset_start with
      | None => Raise TypeError
      | Some o =>
          let ent_start := part_sw p - o in
          match part_text p with
          | None => Raise TypeError
          | Some text =>
              ent_span offset_start rest
                       (ent_start, ent_start + Z.of_nat (String.length text))
          end
      end
  end.

(** The body of the loop of [EDIRDoc.get_ess_entities]. *)
Definition ess_entity_step (offset_start : option Z) (entities : list EDIRAnn) (e : XmlEnt)
  : result (list EDIRAnn) :=
  match ent_type e with
  | None => Ok entities
  | Some ty =>
      if startswith ty "label:" then Ok entities
      else
        let negated := contains "neg_" ty in
        let ty := if negated then replace "neg_" "" ty else ty in
        s ← joined_text (ent_parts e);
        '(ent_start, ent_end) ← ent_span offset_start (ent_parts e) (-1, -1);
        let ann := new_EDIRAnn s ent_start ent_end ty in
        let ann := mkEDIRAnn (ed_basic ann) (ed_type ann) negated in
        let ann := mkEDIRAnn (set_id (ed_basic ann) (IntId (Z.of_nat (length entities))))
                             (ed_type ann) (ed_negated ann) in
        Ok (entities ++ [ann])
  end.

(** [EDIRDoc.get_ess_entities] *)
Definition get_ess_entities (d : EDIRDoc) : result (list EDIRAnn) :=
  for_each (ess_entity_step (get_word_offset_start d)) (xml_ents d) [].

(** ** The SemEHR document *)

(** One annotation of the JSON record, with the fields [load_anns] reads. *)
Inductive RawAnn : Type :=
| RawMention (string_orig : string) (start_offset end_offset : Z)
             (Negation Temporality Experiencer inst STY PREF : string)
| RawPhenotype (string_orig : string) (start_offset end_offset : Z)
               (Negation Temporality Experiencer majorType minorType : string)
| RawSentence (start_offset end_offset : Z)
| RawOther (type : string).

(** class SemEHRAnnDoc *)
Record SemEHRAnnDoc : Type := mkSemEHRAnnDoc {
  doc_anns : list SemEHRAnn;
  doc_phenotype_anns : list PhenotypeAnn;
  doc_sentences : list BasicAnn;
  doc_others : list RawAnn
}.

Definition numbered (prefix : string) (n : nat) : ann_id :=
  StrId (prefix +:+ pretty n).

(** The body of the inner loop of [SemEHRAnnDoc.load_anns]. *)
Definition load_ann (d : SemEHRAnnDoc) (ann : RawAnn) : SemEHRAnnDoc :=
  match ann with
  | RawMention s b e neg temp exp inst sty pref =>
      let i := numbered "cui-" (S (length (doc_anns d))) in
      let a := mkSemEHRAnn
                 (mkContextedAnn (set_id (new_BasicAnn s b e) i) neg temp exp)
                 inst sty pref "Mention" in
      mkSemEHRAnnDoc (doc_anns d ++ [a]) (doc_phenotype_anns d) (doc_sentences d) (doc_others d)
  | RawPhenotype s b e neg temp exp major minor =>
      let i := numbered "phe-" (S (length (doc_phenotype_anns d))) in
      let a := mkPhenotypeAnn
                 (mkContextedAnn (set_id (new_BasicAnn s b e) i) neg temp exp)
                 major minor in
      mkSemEHRAnnDoc (doc_anns d) (doc_phenotype_anns d ++ [a]) (doc_sentences d) (doc_others d)
  | RawSentence b e =>
      let i := numbered "sent-" (S (length (doc_sentences d))) in
      let a := set_id (new_BasicAnn "Sentence" b e) i in
      mkSemEHRAnnDoc (doc_anns d) (doc_phenotype_anns d) (doc_sentences d ++ [a]) (doc_others d)
  | RawOther _ =>
      mkSemEHRAnnDoc (doc_anns d) (doc_phenotype_anns d) (doc_sentences d) (doc_others d ++ [ann])
  end.

(** [SemEHRAnnDoc.__init__] and [load_anns], on the [annotations] of the
    JSON record (a list of lists). The final [sorted(...)] of the source
    builds a list that is dropped. *)
Definition load_anns (annotations : list (list RawAnn)) : SemEHRAnnDoc :=
  fold_left (fun d anns => fold_left load_ann anns d) annotations
            (mkSemEHRAnnDoc [] [] [] []).

(** ** The concept mapping and the recogniser *)

(** class Concept2Mapping, once loaded. *)
Record Concept2Mapping : Type := mkConcept2Mapping {
  cm_cui2label : gmap string string;
  cm_concept2label : gmap string (list string)
}.

(** class CustomisedRecoginiser *)
Record CustomisedRecoginiser : Type := mkCustomisedRecoginiser {
  cr_doc : SemEHRAnnDoc;
  cr_concept_mapping : Concept2Mapping
}.

(** [CustomisedRecoginiser.__init__] *)
Definition new_CustomisedRecoginiser (annotations : list (list RawAnn))
  (concept_mapping : Concept2Mapping) : CustomisedRecoginiser :=
  mkCustomisedRecoginiser (load_anns annotations) concept_mapping.

Definition annotations (cr : CustomisedRecoginiser) : list SemEHRAnn := doc_anns (cr_doc cr).
Definition phenotypes (cr : CustomisedRecoginiser) : list PhenotypeAnn :=
  doc_phenotype_anns (cr_doc cr).
Definition sentences (cr : CustomisedRecoginiser) : list BasicAnn := doc_sentences (cr_doc cr).
Definition concept2label (cr : CustomisedRecoginiser) : gmap string (list string) :=
  cm_concept2label (cr_concept_mapping cr).

(** [x in xs] for a list. *)
Definition in_list {A : Type} `{EqDecision A} (x : A) (xs : list A) : bool :=
  bool_decide (x ∈ xs).

(** [xs.remove(x)]: the first occurrence goes (the callers below test
    [x in xs] first). *)
Fixpoint remove_first {A : Type} `{EqDecision A} (x : A) (xs : list A) : list A :=
  match xs with
  | [] => []
  | y :: rest => if decide (y = x) then rest else y :: remove_first x rest
  end.

(** [CustomisedRecoginiser.get_mapped_labels] (the cache [_mapped] holds
    this list after the first call). *)
Definition get_mapped_labels (cr : CustomisedRecoginiser) : list EDIRAnn :=
  flat_map (fun ann : SemEHRAnn =>
    match concept2label cr !! cui ann with
    | None => []
    | Some ts =>
        map (fun t =>
          let ea := new_EDIRAnn (str ann) (start ann) (end_ ann) t in
          mkEDIRAnn (set_id (ed_basic ea) (id ann)) (ed_type ea)
                    (String.eqb (ca_negation (se_ctx ann)) "Negated")) ts
    end) (annotations cr).

(** [CustomisedRecoginiser.get_customised_phenotypes] *)
Definition get_customised_phenotypes (cr : CustomisedRecoginiser) : list EDIRAnn :=
  map (fun ann : PhenotypeAnn =>
    let ea := new_EDIRAnn (str ann) (start ann) (end_ ann) (minor_type ann) in
    mkEDIRAnn (set_id (ed_basic ea) (id ann)) (ed_type ea)
              (String.eqb (ca_negation (ph_ctx ann)) "Negated")) (phenotypes cr).

(** [CustomisedRecoginiser.get_combined_anns] *)
Definition get_combined_anns (cr : CustomisedRecoginiser) : list EDIRAnn :=
  get_mapped_labels cr ++
  filter (fun ann => negb (existsb (fun m => overlap ann m) (get_mapped_labels cr)))
         (get_customised_phenotypes cr).

(** [CustomisedRecoginiser.get_ann_sentence]: [None] when no sentence
    overlaps the annotation. *)
Fixpoint first_overlapping {A : Type} `{Ann A} (ann : A) (sents : list BasicAnn)
  : option BasicAnn :=
  match sents with
  | [] => None
  | s :: rest => if overlap ann s then Some s else first_overlapping ann rest
  end.

Definition get_ann_sentence {A : Type} `{Ann A} (cr : CustomisedRecoginiser) (ann : A)
  : option BasicAnn :=
  first_overlapping ann (sentences cr).

(** [CustomisedRecoginiser.get_previous_sentences] *)
Definition get_previous_sentences {A : Type} `{Ann A} (cr : CustomisedRecoginiser)
  (ann : A) (include_self : bool) : option (list BasicAnn) :=
  match get_ann_sentence cr ann with
  | None => None
  | Some sent =>
      let sents := filter (fun s => start s <? start sent) (sentences cr) in
      Some (sents ++ (if negb include_self then [] else [sent]))
  end.

(** The dict [{'umls': ..., 'phenotype': ...}] of [get_sent_anns]. *)
Record SentAnns : Type := mkSentAnns {
  umls : list SemEHRAnn;
  phenotype : list PhenotypeAnn
}.

(** [CustomisedRecoginiser.get_sent_anns] *)
Definition get_sent_anns {A : Type} `{Ann A} (cr : CustomisedRecoginiser)
  (sent : BasicAnn) (ann_ignore : option A) : SentAnns :=
  let keep {B : Type} `{Ann B} (a : B) : bool :=
    overlap a sent &&
    negb (match ann_ignore with
          | Some ig => overlap ig a
          | None => false
          end) in
  mkSentAnns (filter (fun a => keep a) (annotations cr))
             (filter (fun a => keep a) (phenotypes cr)).

(** [CustomisedRecoginiser.get_same_sentence_anns] *)
Definition get_same_sentence_anns {A : Type} `{Ann A} (cr : CustomisedRecoginiser) (ann : A)
  : option SentAnns :=
  match get_ann_sentence cr ann with
  | None => None
  | Some sent => Some (get_sent_anns cr sent (Some ann))
  end.

(** [xs[-1:]] *)
Definition last_slice {A : Type} (xs : list A) : list A :=
  match last xs with
  | Some x => [x]
  | None => []
  end.

(** [CustomisedRecoginiser.get_prior_anns]. Slicing the [None] that
    [get_previous_sentences] returns raises a [TypeError]. *)
Definition get_prior_anns {A : Type} `{Ann A} (cr : CustomisedRecoginiser) (ann : A)
  : result SentAnns :=
  match get_previous_sentences cr ann true with
  | None => Raise TypeError
  | Some sents =>
      Ok (fold_left (fun ret s =>
            let r := get_sent_anns cr s (Some ann) in
            mkSentAnns (umls ret ++ umls r) (phenotype ret ++ phenotype r))
          (last_slice sents) (mkSentAnns [] []))
  end.

(** The test on the polarity of [label] and of the annotation's negation
    that [get_anns_by_label] makes for both kinds of annotation. *)
Definition polarity_agrees (label negation : string) : bool :=
  (startswith label "neg_" && String.eqb negation "Negated")
  || (negb (startswith label "neg_") && negb (String.eqb negation "Negated")).

(** The first loop of [get_anns_by_label]: the test that appends a
    concept mention to [anns]. *)
Definition concept_selected (cr : CustomisedRecoginiser) (label : string)
  (ignore_mappings : list string) (a : SemEHRAnn) : bool :=
  let t := replace "neg_" "" label in
  match concept2label cr !! cui a with
  | None => false
  | Some ts =>
      if in_list (cui a) ignore_mappings then false
      else if in_list t ts then polarity_agrees label (ca_negation (se_ctx a))
      else false
  end.

(** The innermost loop of [get_anns_by_label], over [anns + phenotypes]:
    it returns [overlaped] and the grown [smaller_to_remove]. *)
Fixpoint scan_overlaps (a : PhenotypeAnn) (cands : list Mention)
  (smaller_to_remove : list Mention) : bool * list Mention :=
  match cands with
  | [] => (false, smaller_to_remove)
  | ann :: rest =>
      if overlap ann a then
        if is_larger a ann then scan_overlaps a rest (smaller_to_remove ++ [ann])
        else (true, smaller_to_remove)
      else scan_overlaps a rest smaller_to_remove
  end.

(** The body of the second loop of [get_anns_by_label]; the state is
    [(phenotypes, smaller_to_remove)]. *)
Definition phenotype_step (label : string) (ignore_mappings : list string)
  (anns : list Mention) (st : list Mention * list Mention) (a : PhenotypeAnn)
  : list Mention * list Mention :=
  let '(phenotypes, smaller_to_remove) := st in
  let t := replace "neg_" "" label in
  if String.eqb (minor_type a) t then
    if in_list (lower (str a)) (map lower ignore_mappings) then st
    else if polarity_agrees label (ca_negation (ph_ctx a)) then
      let '(overlaped, smaller_to_remove) :=
        scan_overlaps a (anns ++ phenotypes) smaller_to_remove in
      if negb overlaped then (phenotypes ++ [Phenotype a], smaller_to_remove)
      else (phenotypes, smaller_to_remove)
    else st
  else st.

(** The last loop of [get_anns_by_label]; the state is
    [(anns, phenotypes)]. *)
Definition remove_step (st : list Mention * list Mention) (o : Mention)
  : list Mention * list Mention :=
  let '(anns, phenotypes) := st in
  let anns := if in_list o anns then remove_first o anns else anns in
  let phenotypes := if in_list o phenotypes then remove_first o phenotypes else phenotypes in
  (anns, phenotypes).

(** [CustomisedRecoginiser.get_anns_by_label] *)
Definition get_anns_by_label (cr : CustomisedRecoginiser) (label : string)
  (ignore_mappings : list string) : list Mention :=
  let anns := map UMLS (filter (concept_selected cr label ignore_mappings) (annotations cr)) in
  let '(phenotypes, smaller_to_remove) :=
    fold_left (phenotype_step label ignore_mappings anns) (phenotypes cr) ([], []) in
  let '(anns, phenotypes) := fold_left remove_step smaller_to_remove (anns, phenotypes) in
  anns ++ phenotypes.

(** ** Performance records *)

(** class LabelPerformance *)
Record LabelPerformance : Type := mkLabelPerformance {
  lp_label : string;
  true_positive : Z;
  false_negative : Z;
  false_positive : Z
}.

(** [LabelPerformance.__init__] *)
Definition new_LabelPerformance (label : string) : LabelPerformance :=
  mkLabelPerformance label 0 0 0.

Definition increase_true_positive (k : Z) (p : LabelPerformance) : LabelPerformance :=
  mkLabelPerformance (lp_label p) (true_positive p + k) (false_negative p) (false_positive p).

Definition increase_false_negative (k : Z) (p : LabelPerformance) : LabelPerformance :=
  mkLabelPerformance (lp_label p) (true_positive p) (false_negative p + k) (false_positive p).

Definition increase_false_positive (k : Z) (p : LabelPerformance) : LabelPerformance :=
  mkLabelPerformance (lp_label p) (true_positive p) (false_negative p) (false_positive p + k).

(** [LabelPerformance.precision] *)
Definition precision (p : LabelPerformance) : Q :=
  if true_positive p + false_positive p =? 0 then inject_Z (-1)
  else (1 * inject_Z (true_positive p) / inject_Z (true_positive p + false_positive p))%Q.

(** [LabelPerformance.recall] *)
Definition recall (p : LabelPerformance) : Q :=
  if true_positive p + false_negative p =? 0 then inject_Z (-1)
  else (1 * inject_Z (true_positive p) / inject_Z (true_positive p + false_negative p))%Q.

(** [LabelPerformance.f1]. The floats of the code are rationals here:
    the tests against [-1] and [0] are those of the code, and the quotient
    is the exact one, which the code rounds. *)
Definition f1 (p : LabelPerformance) : Q :=
  if Qeq_bool (precision p) (inject_Z (-1)) || Qeq_bool (recall p) (inject_Z (-1))
     || Qeq_bool (precision p) 0 || Qeq_bool (recall p) 0
  then inject_Z (-1)
  else (2 / (1 / precision p + 1 / recall p))%Q.

(** ** Validation against the gold standard *)

(** [if l not in label2performance: label2performance[l] = LabelPerformance(l)] *)
Definition ensure_performance (l : string) (label2performance : gmap string LabelPerformance)
  : gmap string LabelPerformance :=
  match label2performance !! l with
  | Some _ => label2performance
  | None => <[l := new_LabelPerformance l]> label2performance
  end.

(** The inner loop of the first loop of [validate], for one gold
    annotation whose label is [l]: it returns [matched] and the state
    [(label2performance, matched_ann_ids)]. *)
Fixpoint validate_scan (l : string) (ga : EDIRAnn) (learnt_anns : list EDIRAnn)
  (st : gmap string LabelPerformance * list ann_id)
  : bool * (gmap string LabelPerformance * list ann_id) :=
  match learnt_anns with
  | [] => (false, st)
  | la :: rest =>
      if String.eqb (label la) l && overlap la ga then
        (true, (alter (increase_true_positive 1) l st.1, st.2 ++ [id la]))
      else validate_scan l ga rest st
  end.

(** The body of the first loop of [validate]. *)
Definition validate_gold (learnt_anns : list EDIRAnn)
  (st : gmap string LabelPerformance * list ann_id) (ga : EDIRAnn)
  : gmap string LabelPerformance * list ann_id :=
  let l := label ga in
  let st := (ensure_performance l st.1, st.2) in
  let '(matched, st) := validate_scan l ga learnt_anns st in
  if negb matched then (alter (increase_false_negative 1) l st.1, st.2) else st.

(** The body of the second loop of [validate]. *)
Definition validate_learnt (matched_ann_ids : list ann_id)
  (label2performance : gmap string LabelPerformance) (la : EDIRAnn)
  : gmap string LabelPerformance :=
  if negb (in_list (id la) matched_ann_ids) then
    let l := label la in
    alter (increase_false_positive 1) l (ensure_performance l label2performance)
  else label2performance.

(** [CustomisedRecoginiser.validate]: the dict [label2performance] is
    updated in place; the function returns its final content. *)
Definition validate (gold_anns learnt_anns : list EDIRAnn)
  (label2performance : gmap string LabelPerformance) : gmap string LabelPerformance :=
  let '(label2performance, matched_ann_ids) :=
    fold_left (validate_gold learnt_anns) gold_anns (label2performance, []) in
  fold_left (validate_learnt matched_ann_ids) learnt_anns label2performance.

(** [validate_mapped_performance] and [validate_combined_performance] *)
Definition validate_mapped_performance (cr : CustomisedRecoginiser) (gold_anns : list EDIRAnn)
  (label2performance : gmap string LabelPerformance) : gmap string LabelPerformance :=
  validate gold_anns (get_mapped_labels cr) label2performance.

Definition validate_combined_performance (cr : CustomisedRecoginiser)
  (gold_anns : list EDIRAnn) (label2performance : gmap string LabelPerformance)
  : gmap string LabelPerformance :=
  validate gold_anns (get_combined_anns cr) label2performance.

(** ** The label model *)

(** class LabelModel *)
Record LabelModel : Type := mkLabelModel {
  lm_label : string;
  context_dimensions : list string;
  label_dimensions : list string;
  lm_cui2label : gmap string string;
  label2freq : gmap string Z;
  selected_dims : option (list string);
  max_dimensions : option Z;
  tp_labels : gset string;
  fp_labels : gset string;
  tps : Z;
  fps : Z;
  tfidf_dims : option (list string);
  use_one_dimension_for_label : bool
}.

(** [LabelModel.__init__] *)
Definition new_LabelModel (label : string) (max_dimensions : option Z) : LabelModel :=
  mkLabelModel label [] [] ∅ ∅ None
    (match max_dimensions with None => Some 2000 | Some n => Some n end)
    ∅ ∅ 0 0 None true.

(** Assignments to one attribute of a model. *)
Definition with_label_dimensions (ds : list string) (m : LabelModel) : LabelModel :=
  mkLabelModel (lm_label m) (context_dimensions m) ds (lm_cui2label m) (label2freq m)
    (selected_dims m) (max_dimensions m) (tp_labels m) (fp_labels m) (tps m) (fps m)
    (tfidf_dims m) (use_one_dimension_for_label m).

Definition with_context (ds : list string) (freq : gmap string Z) (m : LabelModel)
  : LabelModel :=
  mkLabelModel (lm_label m) ds (label_dimensions m) (lm_cui2label m) freq
    (selected_dims m) (max_dimensions m) (tp_labels m) (fp_labels m) (tps m) (fps m)
    (tfidf_dims m) (use_one_dimension_for_label m).

Definition with_tp_labels (s : gset string) (m : LabelModel) : LabelModel :=
  mkLabelModel (lm_label m) (context_dimensions m) (label_dimensions m) (lm_cui2label m)
    (label2freq m) (selected_dims m) (max_dimensions m) s (fp_labels m) (tps m) (fps m)
    (tfidf_dims m) (use_one_dimension_for_label m).

Definition with_fp_labels (s : gset string) (m : LabelModel) : LabelModel :=
  mkLabelModel (lm_label m) (context_dimensions m) (label_dimensions m) (lm_cui2label m)
    (label2freq m) (selected_dims m) (max_dimensions m) (tp_labels m) s (tps m) (fps m)
    (tfidf_dims m) (use_one_dimension_for_label m).

Definition with_cui2label (c : gmap string string) (m : LabelModel) : LabelModel :=
  mkLabelModel (lm_label m) (context_dimensions m) (label_dimensions m) c
    (label2freq m) (selected_dims m) (max_dimensions m) (tp_labels m) (fp_labels m)
    (tps m) (fps m) (tfidf_dims m) (use_one_dimension_for_label m).

Definition with_selected_dims (d : option (list string)) (m : LabelModel) : LabelModel :=
  mkLabelModel (lm_label m) (context_dimensions m) (label_dimensions m) (lm_cui2label m)
    (label2freq m) d (max_dimensions m) (tp_labels m) (fp_labels m)
    (tps m) (fps m) (tfidf_dims m) (use_one_dimension_for_label m).

Definition with_tfidf_dims (d : option (list string)) (m : LabelModel) : LabelModel :=
  mkLabelModel (lm_label m) (context_dimensions m) (label_dimensions m) (lm_cui2label m)
    (label2freq m) (selected_dims m) (max_dimensions m) (tp_labels m) (fp_labels m)
    (tps m) (fps m) d (use_one_dimension_for_label m).

Definition with_tps_fps (tp_freq fp_freq : Z) (m : LabelModel) : LabelModel :=
  mkLabelModel (lm_label m) (context_dimensions m) (label_dimensions m) (lm_cui2label m)
    (label2freq m) (selected_dims m) (max_dimensions m) (tp_labels m) (fp_labels m)
    tp_freq fp_freq (tfidf_dims m) (use_one_dimension_for_label m).

(** The setter of [max_dimensions]: the default it assigns for [None] is
    overwritten by the assignment that follows. *)
Definition set_max_dimensions (value : option Z) (m : LabelModel) : LabelModel :=
  mkLabelModel (lm_label m) (context_dimensions m) (label_dimensions m) (lm_cui2label m)
    (label2freq m) (selected_dims m) value (tp_labels m) (fp_labels m)
    (tps m) (fps m) (tfidf_dims m) (use_one_dimension_for_label m).

Definition set_use_one_dimension_for_label (value : bool) (m : LabelModel) : LabelModel :=
  mkLabelModel (lm_label m) (context_dimensions m) (label_dimensions m) (lm_cui2label m)
    (label2freq m) (selected_dims m) (max_dimensions m) (tp_labels m) (fp_labels m)
    (tps m) (fps m) (tfidf_dims m) value.

(** The optional arguments [tp] and [fp]: [None] by default. *)
Definition mark (flag : option bool) (v : string) (s : gset string) : gset string :=
  match flag with
  | Some _ => {[v]} ∪ s
  | None => s
  end.

(** [LabelModel.add_label_dimension] *)
Definition add_label_dimension (value : string) (tp fp : option bool) (m : LabelModel)
  : LabelModel :=
  let v := lower value in
  if negb (in_list v (label_dimensions m)) then
    let m := with_label_dimensions (label_dimensions m ++ [v]) m in
    let m := with_tp_labels (mark tp v (tp_labels m)) m in
    with_fp_labels (mark fp v (fp_labels m)) m
  else m.

(** [LabelModel.add_context_dimension]. Reading the frequency of a
    dimension that is listed but has no entry in [_label2freq] raises. *)
Definition add_context_dimension (value : string) (tp fp : option bool) (m : LabelModel)
  : result LabelModel :=
  let v := lower value in
  m ← (if negb (in_list v (context_dimensions m)) then
         Ok (with_context (context_dimensions m ++ [v]) (<[v := 1]> (label2freq m)) m)
       else
         match label2freq m !! v with
         | Some n => Ok (with_context (context_dimensions m) (<[v := n + 1]> (label2freq m)) m)
         | None => Raise KeyError
         end);
  let m := with_tp_labels (mark tp v (tp_labels m)) m in
  Ok (with_fp_labels (mark fp v (fp_labels m)) m).

(** [LabelModel.get_ann_dim_label]; [generalise] changes nothing. *)
Definition get_ann_dim_label (ann : Mention) (generalise : bool) : string :=
  let negated := if String.eqb (negation ann) "Negated" then "neg_" else "" in
  negated +:+ lower (str ann).

Definition add_label_dimension_by_annotation (ann : Mention) (tp fp : option bool)
  (m : LabelModel) : LabelModel :=
  add_label_dimension (get_ann_dim_label ann false) tp fp m.

Definition add_context_dimension_by_annotation (ann : Mention) (tp fp : option bool)
  (m : LabelModel) : result LabelModel :=
  add_context_dimension (get_ann_dim_label ann true) tp fp m.

(** [sorted(xs, key=key)]: ascending and stable. *)
Fixpoint insert_sorted {A : Type} (key : A -> Q) (x : A) (xs : list A) : list A :=
  match xs with
  | [] => [x]
  | y :: rest =>
      if Qle_bool (key x) (key y) then x :: xs else y :: insert_sorted key x rest
  end.

Definition sorted {A : Type} (key : A -> Q) (xs : list A) : list A :=
  foldr (insert_sorted key) [] xs.

(** [xs[:k]]; [k] may be [None] or negative. *)
Definition slice_to {A : Type} (k : option Z) (xs : list A) : list A :=
  match k with
  | None => xs
  | Some k =>
      if k <? 0 then take (Z.to_nat (Z.of_nat (length xs) + k)) xs
      else take (Z.to_nat k) xs
  end.

(** [LabelModel.get_top_freq_dimensions] *)
Definition get_top_freq_dimensions (k : option Z) (m : LabelModel)
  : list string * LabelModel :=
  match selected_dims m with
  | Some dims => (dims, m)
  | None =>
      let df := map_to_list (label2freq m) in
      let df := sorted (fun x => - inject_Z x.2)%Q df in
      let dims := map fst (slice_to k df) in
      (dims, with_selected_dims (Some dims) m)
  end.

(** The weight [idf_weight] of [get_top_tfidf_dimensions]. *)
Definition idf_weight (m : LabelModel) : Q :=
  if (tps m >? 0) && (fps m >? 0) then (1 * inject_Z (tps m) / inject_Z (fps m))%Q
  else 1%Q.

(** One turn of the loop of [get_top_tfidf_dimensions]: the score of the
    dimension [l], whose entry in [_label2freq] is [freq]. Dividing by a
    zero count raises. *)
Definition tfidf_score (m : LabelModel) (l : string) (freq : Z) : result Q :=
  let in_tp := bool_decide (l ∈ tp_labels m) in
  let in_fp := bool_decide (l ∈ fp_labels m) in
  let count := (if in_tp then 1 else 0) + (if in_fp then 1 else 0) in
  if count =? 0 then Raise ZeroDivisionError
  else
    let idf := (1 / inject_Z count)%Q in
    let score := inject_Z freq in
    if Qeq_bool (idf_weight m) 1 || (in_tp && in_fp) then
      let score := (score * idf)%Q in
      if in_tp && in_fp then Ok 0%Q else Ok score
    else if in_fp then Ok (score * (idf_weight m * idf))%Q
    else Ok score.

(** The list [df] that the loop of [get_top_tfidf_dimensions] builds. *)
Definition tfidf_scores (m : LabelModel) : result (list (string * Q)) :=
  for_each (fun df '(l, freq) => score ← tfidf_score m l freq; Ok (df ++ [(l, score)]))
           (map_to_list (label2freq m)) [].

(** [LabelModel.get_top_tfidf_dimensions] *)
Definition get_top_tfidf_dimensions (k : option Z) (m : LabelModel)
  : result (list string * LabelModel) :=
  match tfidf_dims m with
  | Some dims => Ok (dims, m)
  | None =>
      df ← tfidf_scores m;
      let df := sorted (fun x => - x.2)%Q df in
      let dims := map fst (slice_to k df) in
      Ok (dims, with_tfidf_dims (Some dims) m)
  end.

(** [xs.index(x)] for an [x] that is in [xs]. *)
Fixpoint index_of (x : string) (xs : list string) : Z :=
  match xs with
  | [] => 0
  | y :: rest => if String.eqb y x then 0 else 1 + index_of x rest
  end.

(** [LabelModel.encode_ann] *)
Definition encode_ann (ann : Mention) (context_anns : list Mention) (m : LabelModel)
  : result (list Z * LabelModel) :=
  let ann_label := get_ann_dim_label ann false in
  let encoded :=
    if use_one_dimension_for_label m then
      if in_list ann_label (label_dimensions m)
      then [index_of ann_label (label_dimensions m)]
      else [-1]
    else map (fun lbl => if String.eqb lbl ann_label then 1 else 0) (label_dimensions m) in
  let context_labels := map (fun c => get_ann_dim_label c true) context_anns in
  '(dims, m) ← get_top_tfidf_dimensions (max_dimensions m) m;
  let encoded :=
    fold_left (fun encoded l =>
                 let freq := 0 in
                 (encoded ++ [if in_list l context_labels then 1 else 0]) ++ [freq])
              dims encoded in
  Ok (encoded, m).

(** ** Collecting dimensions and loading data *)

(** One file of [ann_dir]: the annotations of its JSON record, and the
    parsed gold file of the same key in [gold_dir] when there is one. The
    methods below load the concept table and these files themselves; here
    the loading is done, and [cm] and the documents are what it gave. *)
Record Document : Type := mkDocument {
  doc_json : list (list RawAnn);
  doc_gold : option EDIRDoc
}.

(** [context_anns = [] + sanns['umls'] + sanns['phenotype']] *)
Definition context_of (sanns : SentAnns) : list Mention :=
  [] ++ map UMLS (umls sanns) ++ map Phenotype (phenotype sanns).

(** [for u in sanns['umls']: self._cui2label[u.cui] = u.pref] *)
Definition collect_cui_labels (us : list SemEHRAnn) (m : LabelModel) : LabelModel :=
  fold_left (fun m u => with_cui2label (<[cui u := pref u]> (lm_cui2label m)) m) us m.

(** The ids of the gold entities that carry the label of the model. *)
Definition gold_ids (label_ : string) (gold : list EDIRAnn) : list ann_id :=
  map id (filter (fun e => String.eqb (label e) label_) gold).

(** The test that skips an annotation whose polarity is not the label's. *)
Definition polarity_differs (label_ : string) (a : Mention) : bool :=
  (negb (String.eqb (negation a) "Negated") && startswith label_ "neg_")
  || (String.eqb (negation a) "Negated" && negb (startswith label_ "neg_")).

(** The body of the loop over the files in [LabelModel.collect_dimensions]. *)
Definition collect_dimensions_doc (cm : Concept2Mapping) (m : LabelModel) (d : Document)
  : result LabelModel :=
  let cr := new_CustomisedRecoginiser (doc_json d) cm in
  let t := replace "neg_" "" (lm_label m) in
  let anns := get_anns_by_label cr t [] in
  let neg_anns := get_anns_by_label cr ("neg_" +:+ t) [] in
  for_each (fun m a =>
    let m := add_label_dimension_by_annotation a None None m in
    if polarity_differs (lm_label m) a then Ok m
    else
      match get_same_sentence_anns cr a with
      | None => Raise TypeError
      | Some sanns =>
          let m := collect_cui_labels (umls sanns) m in
          for_each (fun m c => add_context_dimension_by_annotation c None None m)
                   (context_of sanns) m
      end)
    (anns ++ neg_anns) m.

(** [LabelModel.collect_dimensions] *)
Definition collect_dimensions (cm : Concept2Mapping) (ann_dir : list Document)
  (m : LabelModel) : result LabelModel :=
  for_each (collect_dimensions_doc cm) ann_dir m.

(** The loop over the gold entities in [collect_tfidf_dimensions], for one
    annotation [a]; the state is [(matched, tp_freq, not_matched_gds)]. *)
Definition tfidf_match_step (label_ : string) (a : Mention)
  (st : bool * Z * list ann_id) (g : EDIRAnn) : bool * Z * list ann_id :=
  let '(matched, tp_freq, not_matched_gds) := st in
  if in_list (id g) not_matched_gds then
    if overlap g a && String.eqb (label g) label_ then
      (true, tp_freq + 1, remove_first (id g) not_matched_gds)
    else st
  else st.

(** The state of [collect_tfidf_dimensions]: the model and the two
    counters [tp_freq] and [fp_freq]. *)
Definition tfidf_ann_step (cr : CustomisedRecoginiser) (gold : list EDIRAnn)
  (st : LabelModel * Z * Z * list ann_id) (a : Mention)
  : result (LabelModel * Z * Z * list ann_id) :=
  let '(m, tp_freq, fp_freq, not_matched_gds) := st in
  let m := add_label_dimension_by_annotation a None None m in
  if polarity_differs (lm_label m) a then Ok (m, tp_freq, fp_freq, not_matched_gds)
  else
    let '(matched, tp_freq, not_matched_gds) :=
      fold_left (tfidf_match_step (lm_label m) a) gold (false, tp_freq, not_matched_gds) in
    let fp_freq := if negb matched then fp_freq + 1 else fp_freq in
    sanns ← get_prior_anns cr a;
    let m := collect_cui_labels (umls sanns) m in
    m ← for_each (fun m c =>
           add_context_dimension_by_annotation c
             (if matched then Some true else None)
             (if negb matched then Some true else None) m)
         (context_of sanns) m;
    Ok (m, tp_freq, fp_freq, not_matched_gds).

(** The body of the loop over the files in [collect_tfidf_dimensions]. *)
Definition collect_tfidf_doc (cm : Concept2Mapping) (st : LabelModel * Z * Z) (d : Document)
  : result (LabelModel * Z * Z) :=
  let '(m, tp_freq, fp_freq) := st in
  let cr := new_CustomisedRecoginiser (doc_json d) cm in
  match doc_gold d with
  | None => Ok st
  | Some gd =>
      let t := replace "neg_" "" (lm_label m) in
      let anns := get_anns_by_label cr t [] in
      let neg_anns := get_anns_by_label cr ("neg_" +:+ t) [] in
      gold ← get_ess_entities gd;
      let not_matched_gds := gold_ids (lm_label m) gold in
      '(m, tp_freq, fp_freq, _) ←
        for_each (tfidf_ann_step cr gold) (anns ++ neg_anns)
                 (m, tp_freq, fp_freq, not_matched_gds);
      Ok (m, tp_freq, fp_freq)
  end.

(** [LabelModel.collect_tfidf_dimensions] *)
Definition collect_tfidf_dimensions (cm : Concept2Mapping) (ann_dir : list Document)
  (m : LabelModel) : result LabelModel :=
  '(m, tp_freq, fp_freq) ← for_each (collect_tfidf_doc cm) ann_dir (m, 0, 0);
  Ok (with_tps_fps tp_freq fp_freq m).

(** The dict that [load_data] returns. *)
Record Data : Type := mkData {
  X : list (list Z);
  Y : list (list Z);
  fns : Z;
  mtp : Z
}.

(** The loop over the gold entities in [load_data], for one annotation
    [a]; the state is [(matched, multiple_true_positives, not_matched_gds)]. *)
Definition load_match_step (label_ : string) (a : Mention)
  (st : bool * Z * list ann_id) (g : EDIRAnn) : bool * Z * list ann_id :=
  let '(matched, multiple_true_positives, not_matched_gds) := st in
  if in_list (id g) not_matched_gds then
    if overlap g a && String.eqb (label g) label_ then
      (true,
       if matched then multiple_true_positives + 1 else multiple_true_positives,
       remove_first (id g) not_matched_gds)
    else st
  else st.

(** The body of the loop over [anns] in [load_data]; the state is the
    model, [X], [Y], [multiple_true_positives] and [not_matched_gds]. *)
Definition load_ann_step (cr : CustomisedRecoginiser) (gold : list EDIRAnn)
  (st : LabelModel * list (list Z) * list (list Z) * Z * list ann_id) (a : Mention)
  : result (LabelModel * list (list Z) * list (list Z) * Z * list ann_id) :=
  let '(m, X, Y, multiple_true_positives, not_matched_gds) := st in
  t2anns ← get_prior_anns cr a;
  let context_anns := context_of t2anns in
  let '(matched, multiple_true_positives, not_matched_gds) :=
    fold_left (load_match_step (lm_label m) a) gold
              (false, multiple_true_positives, not_matched_gds) in
  let Y := Y ++ [[if matched then 1 else 0]] in
  '(encoded, m) ← encode_ann a context_anns m;
  Ok (m, X ++ [encoded], Y, multiple_true_positives, not_matched_gds).

(** The body of the loop over the files in [load_data]. *)
Definition load_data_doc (cm : Concept2Mapping) (ignore_mappings : list string)
  (st : LabelModel * Data) (d : Document) : result (LabelModel * Data) :=
  let '(m, data) := st in
  let cr := new_CustomisedRecoginiser (doc_json d) cm in
  match doc_gold d with
  | None => Ok st
  | Some gd =>
      gold ← get_ess_entities gd;
      let not_matched_gds := gold_ids (lm_label m) gold in
      let anns := get_anns_by_label cr (lm_label m) ignore_mappings in
      '(m, X, Y, multiple_true_positives, not_matched_gds) ←
        for_each (load_ann_step cr gold) anns
                 (m, X data, Y data, mtp data, not_matched_gds);
      Ok (m, mkData X Y (fns data + Z.of_nat (length not_matched_gds))
                    multiple_true_positives)
  end.

(** [LabelModel.load_data]: the returned dict, and the model, whose
    cache of selected dimensions [encode_ann] may have filled. *)
Definition load_data (cm : Concept2Mapping) (ann_dir : list Document)
  (ignore_mappings : list string) (m : LabelModel) : result (Data * LabelModel) :=
  '(m, data) ← for_each (load_data_doc cm ignore_mappings) ann_dir (m, mkData [] [] 0 0);
  Ok (data, m).

(** ** Prediction *)

Section prediction.

(** What [predict_use_model] takes from outside the module: the file
    system ([isfile]), the setting [_min_sample_size], and the persisted
    models. [pca_transform f X] stands for [jl.load(f).transform(X)] and
    [model_predict f X] for [jl.load(f).predict(X)]; either may raise. *)
Variable isfile : string -> bool.
Variable _min_sample_size : Z.
Variable pca_transform : string -> list (list Z) -> result (list (list Q)).
Variable model_predict : string -> list (list Q) -> result (list Q).

(** [numpy.ones(n)] *)
Definition ones (n : nat) : list Q := replicate n 1%Q.

(** The first half of [predict_use_model]: the prediction vector [P] and
    the performance record after the counts of [load_data] are folded in.
    Without a model file [P] is not assigned before the test on
    [all_true], which then assigns it; the empty list stands for it until
    then. *)
Definition predictions (X : list (list Z)) (fns multiple_tps : Z) (model_file : string)
  (performance : LabelPerformance) (pca_model_file : option string)
  : result (list Q * LabelPerformance) :=
  '(all_true, P, performance) ←
    (if negb (isfile model_file) then Ok (true, [], performance)
     else
       X_new ← match pca_model_file with
               | Some f => pca_transform f X
               | None => Ok (map (map inject_Z) X)
               end;
       P ← model_predict model_file X_new;
       let performance :=
         if fns >? 0 then increase_false_negative fns performance else performance in
       let performance :=
         if multiple_tps >? 0 then increase_true_positive multiple_tps performance
         else performance in
       Ok (false, P, performance));
  if all_true || (Z.of_nat (length X) <=? _min_sample_size)
  then Ok (ones (length X), performance)
  else Ok (P, performance).

(** [P[idx] == Y[idx]]: a number against the one-element list that
    [load_data] appended; the truth value of the comparison is that of its
    only element. *)
Definition equals_label (p : Q) (y : list Z) : result bool :=
  match y with
  | [v] => Ok (Qeq_bool p (inject_Z v))
  | _ => Raise ValueError
  end.

(** One turn of the last loop of [predict_use_model]. *)
Definition score_prediction (P : list Q) (Y : list (list Z))
  (performance : LabelPerformance) (idx : nat) : result LabelPerformance :=
  match P !! idx, Y !! idx with
  | Some p, Some y =>
      same ← equals_label p y;
      if (same : bool) then
        if Qeq_bool p 1 then Ok (increase_true_positive 1 performance) else Ok performance
      else if Qeq_bool p 1 then Ok (increase_false_positive 1 performance)
      else Ok (increase_false_negative 1 performance)
  | _, _ => Raise IndexError
  end.

(** [LabelModel.predict_use_model]: the final performance record. *)
Definition predict_use_model (X : list (list Z)) (Y : list (list Z)) (fns multiple_tps : Z)
  (model_file : string) (performance : LabelPerformance) (pca_model_file : option string)
  : result LabelPerformance :=
  '(P, performance) ← predictions X fns multiple_tps model_file performance pca_model_file;
  for_each (score_prediction P Y) (seq 0 (length P)) performance.

End prediction.

(** ** Reading the counters of a dict of performance records *)

(** The counter of label [l], [0] when the dict has no record for it. *)
Definition tp_of (label2performance : gmap string LabelPerformance) (l : string) : Z :=
  from_option true_positive 0 (label2performance !! l).

Definition fn_of (label2performance : gmap string LabelPerformance) (l : string) : Z :=
  from_option false_negative 0 (label2performance !! l).

Definition fp_of (label2performance : gmap string LabelPerformance) (l : string) : Z :=
  from_option false_positive 0 (label2performance !! l).

(** A dict of fresh records: every counter it holds is zero. *)
Definition fresh (label2performance : gmap string LabelPerformance) : Prop :=
  forall l, tp_of label2performance l = 0 /\ fn_of label2performance l = 0
            /\ fp_of label2performance l = 0.

(** A label of [Y] that says "matched": the list [[1]]. *)
Definition is_positive (y : list Z) : bool :=
  match y with
  | [v] => v =? 1
  | _ => false
  end.

(** [tp] more true positives and [fp] more false positives. *)
Definition add_counts (tp fp : Z) (p : LabelPerformance) : LabelPerformance :=
  increase_false_positive fp (increase_true_positive tp p).

(** The number of elements of [xs] that pass [f]. *)
Definition count {A : Type} (f : A -> bool) (xs : list A) : Z :=
  Z.of_nat (length (filter (fun x => f x) xs)).

(** The learnt annotation that [validate] credits to the gold annotation
    [ga]: the first one, in list order, with the label of [ga] that
    overlaps it. *)
Definition first_match (learnt_anns : list EDIRAnn) (ga : EDIRAnn) : option EDIRAnn :=
  find (fun la => String.eqb (label la) (label ga) && overlap la ga) learnt_anns.

(** Whether [validate] finds a learnt annotation for [ga]. *)
Definition has_match (learnt_anns : list EDIRAnn) (ga : EDIRAnn) : bool :=
  match first_match learnt_anns ga with
  | Some _ => true
  | None => false
  end.

(** The ids credited to the gold annotations, in their order. *)
Definition credited_ids (gold_anns learnt_anns : list EDIRAnn) : list ann_id :=
  omap (fun ga => id <$> first_match learnt_anns ga) gold_anns.

(** ** The matching that the specification describes

    The specification of [validate] has a gold annotation take the first
    learnt annotation of its label that overlaps it and whose id no
    earlier gold annotation has claimed. [claimed_validate] follows those
    words; it differs from [validate] in the test on [matched_ann_ids]
    inside the scan. *)
Fixpoint claimed_scan (l : string) (ga : EDIRAnn) (learnt_anns : list EDIRAnn)
  (st : gmap string LabelPerformance * list ann_id)
  : bool * (gmap string LabelPerformance * list ann_id) :=
  match learnt_anns with
  | [] => (false, st)
  | la :: rest =>
      if negb (in_list (id la) st.2) && String.eqb (label la) l && overlap la ga then
        (true, (alter (increase_true_positive 1) l st.1, st.2 ++ [id la]))
      else claimed_scan l ga rest st
  end.

Definition claimed_gold (learnt_anns : list EDIRAnn)
  (st : gmap string LabelPerformance * list ann_id) (ga : EDIRAnn)
  : gmap string LabelPerformance * list ann_id :=
  let l := label ga in
  let st := (ensure_performance l st.1, st.2) in
  let '(matched, st) := claimed_scan l ga learnt_anns st in
  if negb matched then (alter (increase_false_negative 1) l st.1, st.2) else st.

Definition claimed_validate (gold_anns learnt_anns : list EDIRAnn)
  (label2performance : gmap string LabelPerformance) : gmap string LabelPerformance :=
  let '(label2performance, matched_ann_ids) :=
    fold_left (claimed_gold learnt_anns) gold_anns (label2performance, []) in
  fold_left (validate_learnt matched_ann_ids) learnt_anns label2performance.

(** ** Models built by the collection pass

    [collected m]: the model [m] is a new model changed only by the
    methods of the collection pass, every call of [add_context_dimension]
    passing [tp] or [fp], as the calls of [collect_tfidf_dimensions] do. *)
Inductive collected : LabelModel -> Prop :=
| collected_new label max_dimensions :
    collected (new_LabelModel label max_dimensions)
| collected_label value tp fp m :
    collected m -> collected (add_label_dimension value tp fp m)
| collected_context value tp fp m m' :
    collected m -> is_Some tp \/ is_Some fp ->
    add_context_dimension value tp fp m = Ok m' -> collected m'
| collected_tfidf cm ann_dir m m' :
    collected m -> collect_tfidf_dimensions cm ann_dir m = Ok m' -> collected m'
| collected_max value m :
    collected m -> collected (set_max_dimensions value m)
| collected_one_dimension value m :
    collected m -> collected (set_use_one_dimension_for_label value m)
| collected_selected k m dims m' :
    collected m -> get_top_tfidf_dimensions k m = Ok (dims, m') -> collected m'.

(** Every context dimension is a member of the TP set or of the FP set. *)
Definition dimensions_marked (m : LabelModel) : Prop :=
  forall l, is_Some (label2freq m !! l) -> l ∈ tp_labels m \/ l ∈ fp_labels m.

(** ** Concrete inputs *)

Definition span_0_10 : BasicAnn := new_BasicAnn "left ventricular infarct" 0 10.
Definition span_2_5 : BasicAnn := new_BasicAnn "infarct" 2 5.

Definition gold_entity (i : Z) (s : string) (b e : Z) (type : string) : EDIRAnn :=
  mkEDIRAnn (set_id (new_BasicAnn s b e) (IntId i)) type false.

Definition learnt_entity (i : string) (s : string) (b e : Z) (type : string) : EDIRAnn :=
  mkEDIRAnn (set_id (new_BasicAnn s b e) (StrId i)) type false.

(** Two gold strokes that the same learnt stroke overlaps. *)
Definition two_gold : list EDIRAnn :=
  [gold_entity 0 "stroke" 0 5 "stroke"; gold_entity 1 "infarct" 3 8 "stroke"].

Definition one_learnt : list EDIRAnn := [learnt_entity "cui-1" "stroke" 2 4 "stroke"].

(** A concept table with one concept, mapped to the label [stroke]. *)
Definition stroke_mapping : Concept2Mapping :=
  mkConcept2Mapping {["C0038454" := "Cerebrovascular accident"]}
                    {["C0038454" := ["stroke"]]}.

(** A document of one sentence with two mentions of the concept, the
    first over the start of the gold stroke and the second over its end,
    and a negated mention of a concept that is not in the table. *)
Definition stroke_json : list (list RawAnn) :=
  [[RawSentence 0 40;
    RawMention "stroke" 8 12 "Affirmed" "Recent" "Patient" "C0038454" "Disease" "CVA";
    RawMention "Infarct" 14 20 "Affirmed" "Recent" "Patient" "C0038454" "Disease" "CVA";
    RawMention "Fever" 32 37 "Negated" "Recent" "Patient" "C0015967" "Finding" "Fever"]].

Definition stroke_gold : EDIRDoc :=
  mkEDIRDoc [Some 100]
            [mkXmlEnt (Some "stroke") [mkXmlPart 110 (Some "stroke")]].

Definition stroke_document : Document := mkDocument stroke_json (Some stroke_gold).

(** The two stroke mentions as [load_anns] builds them, and the gold
    stroke as [get_ess_entities] builds it. *)
Definition stroke_mention (i s : string) (b e : Z) : Mention :=
  UMLS (mkSemEHRAnn
          (mkContextedAnn (mkBasicAnn s b e (StrId i)) "Affirmed" "Recent" "Patient")
          "C0038454" "Disease" "CVA" "Mention").

Definition first_mention : Mention := stroke_mention "cui-1" "stroke" 8 12.
Definition second_mention : Mention := stroke_mention "cui-2" "Infarct" 14 20.
Definition gold_stroke : EDIRAnn := gold_entity 0 "stroke" 10 16 "stroke".

(** A mention in a document that has no sentence annotation. *)
Definition no_sentence_json : list (list RawAnn) :=
  [[RawMention "stroke" 8 20 "Affirmed" "Recent" "Patient" "C0038454" "Disease" "CVA"]].

Definition stroke_model : LabelModel := new_LabelModel "stroke" None.

(** A model with ten true positives, five false positives, a dimension
    seen with false positives only and one seen with both. *)
Definition weighted_model : LabelModel :=
  mkLabelModel "stroke" ["fever"; "neg_fall"] [] ∅
    {["fever" := 3; "neg_fall" := 4]} None (Some 20)
    {["neg_fall"]} {["fever"; "neg_fall"]} 10 5 None true.

(** A file system with no file, and one with every file; a classifier
    that answers [0] for every row. *)
Definition no_file (f : string) : bool := false.
Definition any_file (f : string) : bool := true.
Definition identity_pca (f : string) (X : list (list Z)) : result (list (list Q)) :=
  Ok (map (map inject_Z) X).
Definition all_negative (f : string) (X : list (list Q)) : result (list Q) :=
  Ok (map (fun _ => 0%Q) X).

(** A classifier that refuses an empty array with a [ValueError], as
    [predict] of a fitted scikit-learn estimator does, and answers [0] for
    every row otherwise. *)
Definition rejects_empty (f : string) (X : list (list Q)) : result (list Q) :=
  match X with
  | [] => Raise ValueError
  | _ => Ok (map (fun _ => 0%Q) X)
  end.

(** ** Predicting a label *)

Section predict_label.

Variable isfile : string -> bool.
Variable _min_sample_size : Z.
Variable pca_transform : string -> list (list Z) -> result (list (list Q)).
Variable model_predict : string -> list (list Q) -> result (list Q).

(** [predict_label]. [lm] is the model that [LabelModel.deserialise]
    reads from [model_file], [test_dir] the files of [test_ann_dir] with
    their gold files, [concept_mapping] the loaded concept table. The
    function updates [performance] and returns nothing; the result here is
    the updated record. *)
Definition predict_label (lm : LabelModel) (concept_mapping : Concept2Mapping)
  (test_dir : list Document) (ml_model_file : string) (performance : LabelPerformance)
  (pca_model_file : option string) (max_dimension : option Z)
  (ignore_mappings : list string) : result LabelPerformance :=
  let lm := set_max_dimensions max_dimension lm in
  '(data, lm) ← load_data concept_mapping test_dir ignore_mappings lm;
  predict_use_model isfile _min_sample_size pca_transform model_predict
    (X data) (Y data) (fns data) (mtp data) ml_model_file performance pca_model_file.

End predict_label.

(** ** Notions used by the further properties *)





(** A gold document whose words start at offset 100: a label to skip,
    whose part has no text, a negated entity in two parts, and an entity
    with no part. *)
Definition parts_gold : EDIRDoc :=
  mkEDIRDoc [None; Some 100; Some 107]
            [mkXmlEnt (Some "label:stroke") [mkXmlPart 100 None];
             mkXmlEnt (Some "neg_stroke")
                      [mkXmlPart 110 (Some "no"); mkXmlPart 120 (Some "infarct")];
             mkXmlEnt None [mkXmlPart 130 (Some "y")];
             mkXmlEnt (Some "tumour") []].



(** The ids of the three collections of a document number their
    elements from one. *)
Definition ids_numbered (d : SemEHRAnnDoc) : Prop :=
  map id (doc_anns d) = map (numbered "cui-") (seq 1 (length (doc_anns d)))
  /\ map id (doc_phenotype_anns d)
     = map (numbered "phe-") (seq 1 (length (doc_phenotype_anns d)))
  /\ map id (doc_sentences d) = map (numbered "sent-") (seq 1 (length (doc_sentences d))).

Definition doc_size (d : SemEHRAnnDoc) : nat :=
  (length (doc_anns d) + length (doc_phenotype_anns d) + length (doc_sentences d)
   + length (doc_others d))%nat.

(** The annotations that [get_anns_by_label] may return for [label]: a
    concept mention whose concept is mapped to the type of the label and
    is not ignored, or a phenotype mention of that minor type whose text
    is not ignored; in both cases with the polarity of the label. *)
Definition selectable (cr : CustomisedRecoginiser) (label : string)
  (ignore_mappings : list string) (m : Mention) : Prop :=
  polarity_agrees label (negation m) = true
  /\ match m with
     | UMLS a =>
         a ∈ annotations cr /\ (cui a ∉ ignore_mappings)
         /\ exists ts, concept2label cr !! cui a = Some ts /\ (replace "neg_" "" label) ∈ ts
     | Phenotype a =>
         a ∈ phenotypes cr /\ minor_type a = replace "neg_" "" label
         /\ (lower (str a) ∉ map lower ignore_mappings)
     end.

(** The list of context dimensions and the dict of their frequencies
    name the same dimensions. *)
Definition context_indexed (m : LabelModel) : Prop :=
  forall v, v ∈ context_dimensions m <-> is_Some (label2freq m !! v).

(** The number of slots that [encode_ann] gives to the label of the
    annotation. *)
Definition label_width (m : LabelModel) : nat :=
  if use_one_dimension_for_label m then 1%nat else length (label_dimensions m).

(** The state that [load_data] keeps while it builds [X] and [Y]: as
    many rows as labels, labels that are [[0]] or [[1]], a count of
    multiple true positives that is not negative, and rows that all have
    the width given by the selection cached in the model. [W] is the width
    of the label part. *)
Definition rows_aligned (W : nat) (m : LabelModel) (X Y : list (list Z)) (mtp : Z) : Prop :=
  label_width m = W
  /\ length X = length Y
  /\ Forall (fun y => y = [0] \/ y = [1]) Y
  /\ 0 <= mtp
  /\ (X = [] \/ exists dims, tfidf_dims m = Some dims
                /\ Forall (fun row => length row = (W + 2 * length dims)%nat) X).

(** Two results agree up to [R]: both are values that [R] relates, or
    both raise the same exception. *)
Definition agree {S T : Type} (R : S -> T -> Prop) (r1 : result S) (r2 : result T) : Prop :=
  match r1, r2 with
  | Ok s, Ok t => R s t
  | Raise e1, Raise e2 => e1 = e2
  | _, _ => False
  end.

(** A model as training leaves it: the selection of [weighted_model] is
    cached. *)
Definition trained_model : LabelModel := with_tfidf_dims (Some ["fever"]) weighted_model.

(** The number of gold entities with the label [label_] in the gold
    file of one document, and in those of a directory. *)
Definition gold_with_label (label_ : string) (d : Document) : Z :=
  match doc_gold d with
  | Some gd =>
      match get_ess_entities gd with
      | Ok gold => Z.of_nat (length (gold_ids label_ gold))
      | Raise _ => 0
      end
  | None => 0
  end.

Definition gold_total (label_ : string) (ann_dir : list Document) : Z :=
  foldr (fun d n => gold_with_label label_ d + n) 0 ann_dir.

(** * Properties *)

(** ** Spans *)

Section span_facts.
Context {A B : Type} `{Ann A} `{Ann B}.

Lemma overlap_true (a : A) (b : B) :
  overlap a b = true <->
  (start b <= start a <= end_ b) \/ (start b <= end_ a <= end_ b).
Proof.
  unfold overlap, start, end_.
  destruct (_ || _)%bool eqn:E.
  - split; [intros _|done].
    apply orb_prop in E as [E|E]; apply andb_prop in E as [E1 E2]; lia.
  - split; [done|]. intros Hr. exfalso.
    apply orb_false_elim in E as [E1 E2].
    apply andb_false_iff in E1, E2. lia.
Qed.

Lemma is_larger_true (a : A) (b : B) :
  is_larger a b = true <->
  start a <= start b /\ end_ b <= end_ a /\ ~ (start a = start b /\ end_ a = end_ b).
Proof.
  unfold is_larger, start, end_.
  rewrite !andb_true_iff, negb_true_iff, andb_false_iff. lia.
Qed.

End span_facts.

(** The converse direction of containment: a span overlaps a span that is
    larger than it. *)
Lemma is_larger_overlap_converse {A B : Type} `{Ann A} `{Ann B} (a : A) (b : B) :
  start b <= end_ b -> is_larger a b = true -> overlap b a = true.
Proof.
  intros Hb Hl. apply is_larger_true in Hl. apply overlap_true. lia.
Qed.

(** [overlap] disagrees with its converse only at a strict containment. *)
Lemma overlap_asymmetric_only_inside {A B : Type} `{Ann A} `{Ann B} (a : A) (b : B) :
  start a <= end_ a -> start b <= end_ b ->
  overlap a b = false -> overlap b a = true ->
  start a < start b /\ end_ b < end_ a.
Proof.
  intros Ha Hb Hab Hba. apply overlap_true in Hba.
  assert (~ ((start b <= start a <= end_ b) \/ (start b <= end_ a <= end_ b))) as Hn.
  { intros Hr. apply overlap_true in Hr. congruence. }
  lia.
Qed.

(** C1. [BasicAnn.overlap] is not symmetric: the span 0..10 strictly
    contains the span 2..5, neither of its ends lies in 2..5, and so the
    larger span does not overlap the smaller one, while the smaller one
    overlaps the larger. *)
Theorem overlap_asymmetric_at_containment :
  start span_0_10 <= end_ span_0_10 /\ start span_2_5 <= end_ span_2_5 /\
  overlap span_0_10 span_2_5 = false /\ overlap span_2_5 span_0_10 = true.
Proof. vm_compute. repeat split; discriminate. Qed.

(** C2. [is_larger] does not imply [overlap]: the span 0..10 is larger
    than the span 2..5 and does not overlap it. *)
Theorem is_larger_without_overlap :
  start span_0_10 <= end_ span_0_10 /\ start span_2_5 <= end_ span_2_5 /\
  is_larger span_0_10 span_2_5 = true /\ overlap span_0_10 span_2_5 = false.
Proof. vm_compute. repeat split; discriminate. Qed.

(** ** The sentence of an annotation *)

Section sentence_facts.
Context {A : Type} `{Ann A}.

Lemma first_overlapping_None (ann : A) (sents : list BasicAnn) :
  first_overlapping ann sents = None <-> existsb (overlap ann) sents = false.
Proof.
  induction sents as [|s rest IH]; simpl; [done|].
  destruct (overlap ann s); simpl; [split; discriminate|exact IH].
Qed.

(** C10. [get_prior_anns] returns exactly when some sentence of the
    document overlaps the annotation. When none does,
    [get_previous_sentences] returns [None] and [get_prior_anns] raises a
    [TypeError]; it does not return empty lists. *)
Theorem get_prior_anns_needs_a_sentence (cr : CustomisedRecoginiser) (ann : A) :
  is_ok (get_prior_anns cr ann) = existsb (overlap ann) (sentences cr)
  /\ (existsb (overlap ann) (sentences cr) = false ->
      get_previous_sentences cr ann true = None
      /\ get_prior_anns cr ann = Raise TypeError
      /\ get_prior_anns cr ann <> Ok (mkSentAnns [] [])).
Proof.
  unfold get_prior_anns, get_previous_sentences, get_ann_sentence.
  destruct (first_overlapping ann (sentences cr)) as [s|] eqn:E.
  - assert (existsb (overlap ann) (sentences cr) = true) as ->.
    { destruct (existsb _ _) eqn:E'; [done|].
      apply first_overlapping_None in E'. congruence. }
    split; [done|discriminate].
  - apply first_overlapping_None in E. rewrite E. done.
Qed.

End sentence_facts.

(** ** Precision, recall and F1 *)

Lemma inject_Z_pos (z : Z) : 0 < z -> (0 < inject_Z z)%Q.
Proof. intros Hz. unfold Qlt. simpl. lia. Qed.

Lemma ratio_pos (a b : Z) : 0 < a -> 0 < b -> (0 < 1 * inject_Z a / inject_Z b)%Q.
Proof.
  intros Ha Hb. unfold Qdiv. apply Qmult_lt_0_compat.
  - rewrite Qmult_1_l. by apply inject_Z_pos.
  - apply Qinv_lt_0_compat. by apply inject_Z_pos.
Qed.

Lemma ratio_zero (b : Z) : (1 * inject_Z 0 / inject_Z b == 0)%Q.
Proof. unfold Qdiv. rewrite Qmult_1_l. apply Qmult_0_l. Qed.

Lemma minus_one_not_pos (q : Q) : (0 < q)%Q -> ~ (q == inject_Z (-1))%Q.
Proof. intros Hq He. rewrite He in Hq. discriminate Hq. Qed.

Lemma zero_not_minus_one (q : Q) : (q == 0)%Q -> ~ (q == inject_Z (-1))%Q.
Proof. intros Hq He. rewrite Hq in He. discriminate He. Qed.

(** The three cases of a ratio [tp / (tp + other)] guarded by the test
    on its denominator, as [precision] and [recall] compute it. *)
Lemma guarded_ratio_cases (tp other : Z) :
  0 <= tp -> 0 <= other ->
  let r := if tp + other =? 0 then inject_Z (-1)
           else (1 * inject_Z tp / inject_Z (tp + other))%Q in
  (tp + other = 0 /\ r = inject_Z (-1))
  \/ (tp + other <> 0 /\ tp = 0 /\ (r == 0)%Q)
  \/ (tp + other <> 0 /\ (0 < r)%Q).
Proof.
  intros Htp Hother. simpl.
  destruct (Z.eqb_spec (tp + other) 0) as [E|E]; [by left|right].
  destruct (Z.eq_dec tp 0) as [->|Hne].
  - left. split; [done|]. split; [done|]. apply ratio_zero.
  - right. split; [done|]. apply ratio_pos; lia.
Qed.

Lemma precision_cases (p : LabelPerformance) :
  0 <= true_positive p -> 0 <= false_positive p ->
  (true_positive p + false_positive p = 0 /\ precision p = inject_Z (-1))
  \/ (true_positive p + false_positive p <> 0 /\ true_positive p = 0 /\ (precision p == 0)%Q)
  \/ (true_positive p + false_positive p <> 0 /\ (0 < precision p)%Q).
Proof. intros H1 H2. exact (guarded_ratio_cases _ _ H1 H2). Qed.

Lemma recall_cases (p : LabelPerformance) :
  0 <= true_positive p -> 0 <= false_negative p ->
  (true_positive p + false_negative p = 0 /\ recall p = inject_Z (-1))
  \/ (true_positive p + false_negative p <> 0 /\ true_positive p = 0 /\ (recall p == 0)%Q)
  \/ (true_positive p + false_negative p <> 0 /\ (0 < recall p)%Q).
Proof. intros H1 H2. exact (guarded_ratio_cases _ _ H1 H2). Qed.

Lemma f1_defined_pos (p : LabelPerformance) :
  (0 < precision p)%Q -> (0 < recall p)%Q ->
  (0 < 2 / (1 / precision p + 1 / recall p))%Q.
Proof.
  intros Hp Hr. unfold Qdiv. apply Qmult_lt_0_compat; [done|].
  apply Qinv_lt_0_compat.
  rewrite !Qmult_1_l.
  apply Qinv_lt_0_compat in Hp, Hr.
  rewrite <- (Qplus_0_l 0). apply Qplus_lt_le_compat; [done|by apply Qlt_le_weak].
Qed.

Lemma f1_sentinel_iff (p : LabelPerformance) :
  0 <= true_positive p -> 0 <= false_negative p -> 0 <= false_positive p ->
  (f1 p == inject_Z (-1))%Q <->
  ((precision p == inject_Z (-1))%Q \/ (recall p == inject_Z (-1))%Q
   \/ (precision p == 0)%Q \/ (recall p == 0)%Q).
Proof.
  intros Htp Hfn Hfp. unfold f1.
  destruct (_ || _)%bool eqn:E.
  - split; [intros _|done].
    rewrite !orb_true_iff, !Qeq_bool_iff in E. tauto.
  - rewrite !orb_false_iff in E. destruct E as [[[E1 E2] E3] E4].
    apply Qeq_bool_neq in E1, E2, E3, E4.
    split; [|tauto]. intros Hf. exfalso.
    destruct (precision_cases p Htp Hfp) as [[_ Hp]|[[_ [_ Hp]]|[_ Hp]]];
      [rewrite Hp in E1; by apply E1|done|].
    destruct (recall_cases p Htp Hfn) as [[_ Hr]|[[_ [_ Hr]]|[_ Hr]]];
      [rewrite Hr in E2; by apply E2|done|].
    by apply (minus_one_not_pos _ (f1_defined_pos p Hp Hr)).
Qed.

(** C6. For a record whose counters are not negative: [precision] is
    [-1] exactly when [tp + fp] is zero and is [tp / (tp + fp)] otherwise;
    [recall] is [-1] exactly when [tp + fn] is zero and is [tp / (tp + fn)]
    otherwise; [f1] is [-1] exactly when precision or recall is [-1] or
    zero; a record of three zero counters has all three at [-1]. *)
Theorem precision_recall_f1_sentinels (p : LabelPerformance) :
  0 <= true_positive p -> 0 <= false_negative p -> 0 <= false_positive p ->
  ((precision p == inject_Z (-1))%Q <-> true_positive p + false_positive p = 0)
  /\ (true_positive p + false_positive p <> 0 ->
      (precision p == inject_Z (true_positive p)
                      / inject_Z (true_positive p + false_positive p))%Q)
  /\ ((recall p == inject_Z (-1))%Q <-> true_positive p + false_negative p = 0)
  /\ (true_positive p + false_negative p <> 0 ->
      (recall p == inject_Z (true_positive p)
                   / inject_Z (true_positive p + false_negative p))%Q)
  /\ ((f1 p == inject_Z (-1))%Q <->
      ((precision p == inject_Z (-1))%Q \/ (recall p == inject_Z (-1))%Q
       \/ (precision p == 0)%Q \/ (recall p == 0)%Q))
  /\ (true_positive p = 0 -> false_negative p = 0 -> false_positive p = 0 ->
      precision p = inject_Z (-1) /\ recall p = inject_Z (-1) /\ f1 p = inject_Z (-1)).
Proof.
  intros Htp Hfn Hfp.
  split; [|split; [|split; [|split; [|split]]]].
  - destruct (precision_cases p Htp Hfp) as [[Hz Hp]|[[Hz [_ Hp]]|[Hz Hp]]].
    + rewrite Hp. done.
    + split; [intros He; by apply zero_not_minus_one in Hp|done].
    + split; [intros He; by apply minus_one_not_pos in Hp|done].
  - intros Hne. unfold precision.
    destruct (Z.eqb_spec (true_positive p + false_positive p) 0); [done|].
    unfold Qdiv. by rewrite Qmult_1_l.
  - destruct (recall_cases p Htp Hfn) as [[Hz Hp]|[[Hz [_ Hp]]|[Hz Hp]]].
    + rewrite Hp. done.
    + split; [intros He; by apply zero_not_minus_one in Hp|done].
    + split; [intros He; by apply minus_one_not_pos in Hp|done].
  - intros Hne. unfold recall.
    destruct (Z.eqb_spec (true_positive p + false_negative p) 0); [done|].
    unfold Qdiv. by rewrite Qmult_1_l.
  - by apply f1_sentinel_iff.
  - intros E1 E2 E3. unfold f1, precision, recall. rewrite E1, E2, E3. done.
Qed.

(** A record with two true positives, one false negative and one false
    positive, and the record of a label with no detected mention and no
    gold entity. *)
Lemma precision_recall_f1_sentinels_example :
  let p := mkLabelPerformance "stroke" 2 1 1 in
  let q := new_LabelPerformance "stroke" in
  (0 <= true_positive p /\ 0 <= false_negative p /\ 0 <= false_positive p)
  /\ (precision p == 2 # 3)%Q /\ (recall p == 2 # 3)%Q /\ ~ (f1 p == inject_Z (-1))%Q
  /\ precision q = inject_Z (-1) /\ recall q = inject_Z (-1) /\ f1 q = inject_Z (-1).
Proof.
  simpl. split; [lia|].
  destruct (precision_recall_f1_sentinels (mkLabelPerformance "stroke" 2 1 1))
    as (_ & Hp & _ & Hr & Hf & _); [simpl; lia..|].
  destruct (precision_recall_f1_sentinels (new_LabelPerformance "stroke"))
    as (_ & _ & _ & _ & _ & Hq); [simpl; lia..|].
  simpl in *.
  split; [rewrite Hp by lia; reflexivity|].
  split; [rewrite Hr by lia; reflexivity|].
  split; [|by apply Hq].
  rewrite Hf. intros [He|[He|[He|He]]]; discriminate He.
Defined.

(** ** Validation *)

Lemma count_nil {A : Type} (f : A -> bool) : count f [] = 0.
Proof. done. Qed.

Lemma count_cons {A : Type} (f : A -> bool) (x : A) (xs : list A) :
  count f (x :: xs) = (if f x then 1 else 0) + count f xs.
Proof.
  unfold count. rewrite filter_cons.
  destruct (f x); simpl; lia.
Qed.

Lemma lookup_alter_ensure (f : LabelPerformance -> LabelPerformance) (l l' : string)
  (m : gmap string LabelPerformance) :
  alter f l (ensure_performance l m) !! l' =
  if decide (l = l') then Some (f (default (new_LabelPerformance l) (m !! l)))
  else m !! l'.
Proof.
  unfold ensure_performance.
  destruct (m !! l) as [p|] eqn:E; case_decide as Hl; subst.
  - rewrite lookup_alter_eq, E. done.
  - by rewrite lookup_alter_ne.
  - rewrite lookup_alter_eq, lookup_insert_eq. done.
  - rewrite lookup_alter_ne, lookup_insert_ne; done.
Qed.

(** What one more true positive, false negative or false positive for
    the label [l] does to the counters of a label [l']. *)
Lemma counters_true_positive (l l' : string) (m : gmap string LabelPerformance) :
  let m' := alter (increase_true_positive 1) l (ensure_performance l m) in
  tp_of m' l' = tp_of m l' + (if String.eqb l l' then 1 else 0)
  /\ fn_of m' l' = fn_of m l' /\ fp_of m' l' = fp_of m l'.
Proof.
  simpl. unfold tp_of, fn_of, fp_of. rewrite lookup_alter_ensure.
  destruct (String.eqb_spec l l') as [->|Hne]; case_decide; try done.
  - destruct (m !! l'); simpl; lia.
  - lia.
Qed.

Lemma counters_false_negative (l l' : string) (m : gmap string LabelPerformance) :
  let m' := alter (increase_false_negative 1) l (ensure_performance l m) in
  tp_of m' l' = tp_of m l'
  /\ fn_of m' l' = fn_of m l' + (if String.eqb l l' then 1 else 0)
  /\ fp_of m' l' = fp_of m l'.
Proof.
  simpl. unfold tp_of, fn_of, fp_of. rewrite lookup_alter_ensure.
  destruct (String.eqb_spec l l') as [->|Hne]; case_decide; try done.
  - destruct (m !! l'); simpl; lia.
  - lia.
Qed.

Lemma counters_false_positive (l l' : string) (m : gmap string LabelPerformance) :
  let m' := alter (increase_false_positive 1) l (ensure_performance l m) in
  tp_of m' l' = tp_of m l' /\ fn_of m' l' = fn_of m l'
  /\ fp_of m' l' = fp_of m l' + (if String.eqb l l' then 1 else 0).
Proof.
  simpl. unfold tp_of, fn_of, fp_of. rewrite lookup_alter_ensure.
  destruct (String.eqb_spec l l') as [->|Hne]; case_decide; try done.
  - destruct (m !! l'); simpl; lia.
  - lia.
Qed.

(** The scan credits the first learnt annotation of the label that
    overlaps the gold annotation, whatever ids are already claimed. *)
Lemma validate_scan_first_match (ga : EDIRAnn) (learnt_anns : list EDIRAnn)
  (st : gmap string LabelPerformance * list ann_id) :
  validate_scan (label ga) ga learnt_anns st =
  match first_match learnt_anns ga with
  | Some la =>
      (true, (alter (increase_true_positive 1) (label ga) st.1, st.2 ++ [id la]))
  | None => (false, st)
  end.
Proof.
  unfold first_match.
  induction learnt_anns as [|la rest IH]; simpl; [done|].
  destruct (String.eqb (label la) (label ga) && overlap la ga); [done|exact IH].
Qed.

Lemma validate_gold_first_match (learnt_anns : list EDIRAnn)
  (st : gmap string LabelPerformance * list ann_id) (ga : EDIRAnn) :
  validate_gold learnt_anns st ga =
  match first_match learnt_anns ga with
  | Some la =>
      (alter (increase_true_positive 1) (label ga) (ensure_performance (label ga) st.1),
       st.2 ++ [id la])
  | None =>
      (alter (increase_false_negative 1) (label ga) (ensure_performance (label ga) st.1),
       st.2)
  end.
Proof.
  unfold validate_gold. rewrite validate_scan_first_match.
  destruct (first_match learnt_anns ga); done.
Qed.

(** The first loop of [validate]. *)
Lemma validate_gold_loop (learnt_anns gold_anns : list EDIRAnn)
  (m : gmap string LabelPerformance) (ids : list ann_id) :
  let r := fold_left (validate_gold learnt_anns) gold_anns (m, ids) in
  r.2 = ids ++ credited_ids gold_anns learnt_anns
  /\ forall l,
      tp_of r.1 l = tp_of m l
        + count (fun ga => String.eqb (label ga) l && has_match learnt_anns ga) gold_anns
      /\ fn_of r.1 l = fn_of m l
        + count (fun ga => String.eqb (label ga) l && negb (has_match learnt_anns ga))
                gold_anns
      /\ fp_of r.1 l = fp_of m l.
Proof.
  revert m ids. induction gold_anns as [|ga rest IH]; intros m ids; simpl.
  - split; [by rewrite app_nil_r|]. intros l. rewrite !count_nil. lia.
  - rewrite validate_gold_first_match. unfold credited_ids, has_match in *. simpl.
    destruct (first_match learnt_anns ga) as [la|] eqn:E; simpl.
    + destruct (IH (alter (increase_true_positive 1) (label ga)
                      (ensure_performance (label ga) m)) (ids ++ [id la])) as [Hids Hc].
      split; [by rewrite Hids, <- app_assoc|].
      intros l. destruct (Hc l) as (Htp & Hfn & Hfp).
      destruct (counters_true_positive (label ga) l m) as (Htp' & Hfn' & Hfp').
      rewrite Htp, Hfn, Hfp, Htp', Hfn', Hfp', !count_cons, E.
      destruct (String.eqb (label ga) l); simpl; lia.
    + destruct (IH (alter (increase_false_negative 1) (label ga)
                      (ensure_performance (label ga) m)) ids) as [Hids Hc].
      split; [done|].
      intros l. destruct (Hc l) as (Htp & Hfn & Hfp).
      destruct (counters_false_negative (label ga) l m) as (Htp' & Hfn' & Hfp').
      rewrite Htp, Hfn, Hfp, Htp', Hfn', Hfp', !count_cons, E.
      destruct (String.eqb (label ga) l); simpl; lia.
Qed.

(** The second loop of [validate]. *)
Lemma validate_learnt_loop (ids : list ann_id) (learnt_anns : list EDIRAnn)
  (m : gmap string LabelPerformance) (l : string) :
  let m' := fold_left (validate_learnt ids) learnt_anns m in
  tp_of m' l = tp_of m l /\ fn_of m' l = fn_of m l
  /\ fp_of m' l = fp_of m l
       + count (fun la => String.eqb (label la) l && negb (in_list (id la) ids)) learnt_anns.
Proof.
  revert m. induction learnt_anns as [|la rest IH]; intros m; simpl.
  - rewrite count_nil. lia.
  - rewrite count_cons. unfold validate_learnt at 2 4 6.
    destruct (in_list (id la) ids); simpl.
    + rewrite andb_false_r. apply IH.
    + rewrite andb_true_r.
      destruct (IH (alter (increase_false_positive 1) (label la)
                      (ensure_performance (label la) m))) as (Htp & Hfn & Hfp).
      destruct (counters_false_positive (label la) l m) as (Htp' & Hfn' & Hfp').
      rewrite Htp, Hfn, Hfp, Htp', Hfn', Hfp'. lia.
Qed.

(** The counters after [validate] are the counters before it plus
    counts that depend on the two lists only. *)
Lemma validate_counters (gold_anns learnt_anns : list EDIRAnn)
  (m : gmap string LabelPerformance) (l : string) :
  tp_of (validate gold_anns learnt_anns m) l = tp_of m l
    + count (fun ga => String.eqb (label ga) l && has_match learnt_anns ga) gold_anns
  /\ fn_of (validate gold_anns learnt_anns m) l = fn_of m l
    + count (fun ga => String.eqb (label ga) l && negb (has_match learnt_anns ga)) gold_anns
  /\ fp_of (validate gold_anns learnt_anns m) l = fp_of m l
    + count (fun la => String.eqb (label la) l
                       && negb (in_list (id la) (credited_ids gold_anns learnt_anns)))
            learnt_anns.
Proof.
  unfold validate.
  pose proof (validate_gold_loop learnt_anns gold_anns m []) as Hg.
  destruct (fold_left (validate_gold learnt_anns) gold_anns (m, [])) as [m1 ids].
  simpl in Hg. destruct Hg as [-> Hg]. destruct (Hg l) as (Htp & Hfn & Hfp).
  destruct (validate_learnt_loop (credited_ids gold_anns learnt_anns) learnt_anns m1 l)
    as (Htp' & Hfn' & Hfp').
  simpl in *. rewrite Htp', Hfn', Hfp', Htp, Hfn, Hfp. done.
Qed.

(** C3, as the code has it. [validate] credits every gold annotation
    with the first learnt annotation, in list order, that has its label and
    overlaps it, whether or not an earlier gold annotation was credited
    with the same one. Per label it adds one true positive for every gold
    annotation that has such a match, one false negative for every gold
    annotation that has none, and one false positive for every learnt
    annotation whose id was credited to no gold annotation. *)
Theorem validate_counts_first_match (gold_anns learnt_anns : list EDIRAnn)
  (label2performance : gmap string LabelPerformance) (l : string) :
  tp_of (validate gold_anns learnt_anns label2performance) l
  = tp_of label2performance l
    + count (fun ga => String.eqb (label ga) l && has_match learnt_anns ga) gold_anns
  /\ fn_of (validate gold_anns learnt_anns label2performance) l
     = fn_of label2performance l
       + count (fun ga => String.eqb (label ga) l && negb (has_match learnt_anns ga))
               gold_anns
  /\ fp_of (validate gold_anns learnt_anns label2performance) l
     = fp_of label2performance l
       + count (fun la => String.eqb (label la) l
                          && negb (in_list (id la) (credited_ids gold_anns learnt_anns)))
               learnt_anns.
Proof.
  unfold validate.
  pose proof (validate_gold_loop learnt_anns gold_anns label2performance []) as Hgold.
  destruct (fold_left (validate_gold learnt_anns) gold_anns (label2performance, []))
    as [after_gold matched_ann_ids].
  simpl in Hgold. destruct Hgold as [-> Hgold].
  destruct (Hgold l) as (Htp & Hfn & Hfp).
  destruct (validate_learnt_loop (credited_ids gold_anns learnt_anns) learnt_anns
              after_gold l) as (Htp' & Hfn' & Hfp').
  simpl in *. rewrite Htp', Hfn', Hfp', Htp, Hfn, Hfp. done.
Qed.

(** C3, as the claim has it, fails. Two gold strokes overlap the one
    learnt stroke: [validate] counts two true positives and no false
    negative, where matching only unclaimed ids counts one of each. *)
Lemma validate_reuses_claimed_mention :
  credited_ids two_gold one_learnt = [StrId "cui-1"; StrId "cui-1"]
  /\ tp_of (validate two_gold one_learnt ∅) "stroke" = 2
  /\ fn_of (validate two_gold one_learnt ∅) "stroke" = 0
  /\ tp_of (claimed_validate two_gold one_learnt ∅) "stroke" = 1
  /\ fn_of (claimed_validate two_gold one_learnt ∅) "stroke" = 1.
Proof. vm_compute. done. Qed.

(** C9. Two runs of [validate] on the same lists, each from fresh
    records, end with the same counters for every label, whichever labels
    the two dicts of fresh records hold. *)
Theorem validate_fresh_runs_agree (gold_anns learnt_anns : list EDIRAnn)
  (first second : gmap string LabelPerformance) (l : string) :
  fresh first -> fresh second ->
  tp_of (validate gold_anns learnt_anns first) l
  = tp_of (validate gold_anns learnt_anns second) l
  /\ fn_of (validate gold_anns learnt_anns first) l
     = fn_of (validate gold_anns learnt_anns second) l
  /\ fp_of (validate gold_anns learnt_anns first) l
     = fp_of (validate gold_anns learnt_anns second) l.
Proof.
  intros H1 H2.
  destruct (validate_counters gold_anns learnt_anns first l) as (T1 & N1 & P1).
  destruct (validate_counters gold_anns learnt_anns second l) as (T2 & N2 & P2).
  destruct (H1 l) as (a1 & b1 & c1). destruct (H2 l) as (a2 & b2 & c2).
  rewrite T1, N1, P1, T2, N2, P2, a1, b1, c1, a2, b2, c2. done.
Qed.

Lemma fresh_empty : fresh ∅.
Proof. intros l. unfold tp_of, fn_of, fp_of. rewrite lookup_empty. done. Qed.

Lemma fresh_singleton (l : string) : fresh {[l := new_LabelPerformance l]}.
Proof.
  intros l'. unfold tp_of, fn_of, fp_of.
  destruct (decide (l = l')) as [->|Hne].
  - rewrite lookup_singleton_eq. done.
  - rewrite lookup_singleton_ne; done.
Qed.

(** Two runs on the two gold strokes and the learnt stroke, one from an
    empty dict and one from a dict that already holds a fresh record. *)
Lemma validate_fresh_runs_agree_example :
  (fresh ∅ /\ fresh {["stroke" := new_LabelPerformance "stroke"]})
  /\ tp_of (validate two_gold one_learnt ∅) "stroke"
     = tp_of (validate two_gold one_learnt {["stroke" := new_LabelPerformance "stroke"]})
             "stroke"
  /\ fn_of (validate two_gold one_learnt ∅) "stroke"
     = fn_of (validate two_gold one_learnt {["stroke" := new_LabelPerformance "stroke"]})
             "stroke"
  /\ fp_of (validate two_gold one_learnt ∅) "stroke"
     = fp_of (validate two_gold one_learnt {["stroke" := new_LabelPerformance "stroke"]})
             "stroke".
Proof.
  split; [split; [apply fresh_empty|apply fresh_singleton]|].
  apply (validate_fresh_runs_agree two_gold one_learnt ∅
           {["stroke" := new_LabelPerformance "stroke"]} "stroke").
  - apply fresh_empty.
  - apply fresh_singleton.
Defined.

(** ** Scores of context dimensions *)

Lemma for_each_invariant {A S : Type} (P : S -> Prop) (body : S -> A -> result S)
  (xs : list A) (s s' : S) :
  (forall s x s', P s -> body s x = Ok s' -> P s') ->
  P s -> for_each body xs s = Ok s' -> P s'.
Proof.
  intros Hbody. revert s. induction xs as [|x rest IH]; intros s Hs; simpl.
  - by intros [= <-].
  - destruct (body s x) as [s1|e] eqn:E; simpl; [|done].
    apply IH. by eapply Hbody.
Qed.

(** The score of a dimension is computed when the dimension is in the TP
    set or in the FP set, and the division raises when it is in neither. *)
Lemma tfidf_score_marked (m : LabelModel) (l : string) (freq : Z) :
  l ∈ tp_labels m \/ l ∈ fp_labels m -> exists s, tfidf_score m l freq = Ok s.
Proof.
  intros Hl. unfold tfidf_score.
  destruct (bool_decide_reflect (l ∈ tp_labels m));
    destruct (bool_decide_reflect (l ∈ fp_labels m)); simpl.
  - rewrite orb_true_r. eauto.
  - destruct (Qeq_bool _ _); simpl; eauto.
  - destruct (Qeq_bool _ _); simpl; eauto.
  - tauto.
Qed.

Lemma tfidf_score_unmarked (m : LabelModel) (l : string) (freq : Z) :
  l ∉ tp_labels m -> l ∉ fp_labels m -> tfidf_score m l freq = Raise ZeroDivisionError.
Proof.
  intros Htp Hfp. unfold tfidf_score.
  rewrite !bool_decide_eq_false_2 by done. done.
Qed.

(** The list [df] holds, in the order of the dict, every dimension with
    its score. *)
Lemma tfidf_scores_loop (m : LabelModel) (xs : list (string * Z))
  (acc df : list (string * Q)) :
  for_each (fun df '(l, freq) => score ← tfidf_score m l freq; Ok (df ++ [(l, score)]))
           xs acc = Ok df ->
  exists df', df = acc ++ df'
    /\ Forall2 (fun x y => x.1 = y.1 /\ tfidf_score m x.1 x.2 = Ok y.2) xs df'.
Proof.
  revert acc. induction xs as [|[l freq] rest IH]; intros acc; simpl.
  - intros [= <-]. exists []. by rewrite app_nil_r.
  - destruct (tfidf_score m l freq) as [s|e] eqn:E; simpl; [|done].
    intros Hrest. destruct (IH _ Hrest) as (df' & -> & Hall).
    exists ((l, s) :: df'). split; [by rewrite <- app_assoc|].
    by constructor.
Qed.

Lemma tfidf_scores_member (m : LabelModel) (df : list (string * Q)) (l : string) (freq : Z) :
  tfidf_scores m = Ok df -> label2freq m !! l = Some freq ->
  exists s, tfidf_score m l freq = Ok s /\ (l, s) ∈ df.
Proof.
  unfold tfidf_scores. intros Hdf Hl.
  apply tfidf_scores_loop in Hdf as (df' & -> & Hall). rewrite app_nil_l.
  apply elem_of_map_to_list in Hl.
  apply list_elem_of_lookup in Hl as [i Hi].
  destruct (Forall2_lookup_l _ _ _ _ _ Hall Hi) as ([l' s] & Hs & Hl' & Hscore).
  simpl in *. subst l'. exists s. split; [done|].
  apply list_elem_of_lookup. by exists i.
Qed.

(** C4. With [tps = 10] and [fps = 5], a context dimension of frequency
    [f] that is in the FP set only is scored [f * 2 * 1], and a dimension
    in both sets is scored [0.0]; these are the scores that the loop of
    [get_top_tfidf_dimensions] puts in its list. *)
Theorem tfidf_score_weighted (m : LabelModel) (l : string) (f : Z) :
  tps m = 10 -> fps m = 5 -> label2freq m !! l = Some f ->
  (l ∉ tp_labels m -> l ∈ fp_labels m ->
   exists s, tfidf_score m l f = Ok s /\ (s == inject_Z f * 2 * 1)%Q)
  /\ (l ∈ tp_labels m -> l ∈ fp_labels m -> tfidf_score m l f = Ok 0%Q)
  /\ (forall df, tfidf_scores m = Ok df ->
      exists s, tfidf_score m l f = Ok s /\ (l, s) ∈ df).
Proof.
  intros Htps Hfps Hl. split; [|split].
  - intros Htp Hfp. unfold tfidf_score, idf_weight. rewrite Htps, Hfps.
    rewrite bool_decide_eq_false_2, bool_decide_eq_true_2 by done. simpl.
    eexists. split; [done|]. unfold Qeq. simpl. lia.
  - intros Htp Hfp. unfold tfidf_score.
    rewrite !bool_decide_eq_true_2 by done. simpl.
    by rewrite orb_true_r.
  - intros df Hdf. by eapply tfidf_scores_member.
Qed.

(** The model [weighted_model]: [fever], seen three times and with
    false positives only, is scored six; [neg_fall], seen with both,
    zero. *)
Lemma tfidf_score_weighted_example :
  (tps weighted_model = 10 /\ fps weighted_model = 5
   /\ label2freq weighted_model !! "fever" = Some 3
   /\ label2freq weighted_model !! "neg_fall" = Some 4)
  /\ (exists s, tfidf_score weighted_model "fever" 3 = Ok s /\ (s == inject_Z 3 * 2 * 1)%Q)
  /\ tfidf_score weighted_model "neg_fall" 4 = Ok 0%Q.
Proof.
  split; [by vm_compute|]. split.
  - apply (tfidf_score_weighted weighted_model "fever" 3); by vm_compute.
  - apply (tfidf_score_weighted weighted_model "neg_fall" 4); by vm_compute.
Defined.

(** ** Dimensions of a collected model *)

Lemma mark_mono (flag : option bool) (v l : string) (s : gset string) :
  l ∈ s -> l ∈ mark flag v s.
Proof. destruct flag; simpl; set_solver. Qed.

Lemma mark_self (flag : option bool) (v : string) (s : gset string) :
  is_Some flag -> v ∈ mark flag v s.
Proof. intros [b ->]. simpl. set_solver. Qed.

Lemma add_label_dimension_marked (value : string) (tp fp : option bool) (m : LabelModel) :
  dimensions_marked m -> dimensions_marked (add_label_dimension value tp fp m).
Proof.
  intros Hm. unfold add_label_dimension.
  destruct (negb _); [|done].
  intros l Hl. simpl in *. destruct (Hm l Hl); [left|right]; by apply mark_mono.
Qed.

Lemma add_context_dimension_marked (value : string) (tp fp : option bool)
  (m m' : LabelModel) :
  dimensions_marked m -> is_Some tp \/ is_Some fp ->
  add_context_dimension value tp fp m = Ok m' -> dimensions_marked m'.
Proof.
  intros Hm Hflag. unfold add_context_dimension.
  assert (forall freq : gmap string Z,
    (forall l, l <> lower value -> freq !! l = label2freq m !! l) ->
    dimensions_marked
      (with_fp_labels
         (mark fp (lower value)
            (fp_labels (with_tp_labels (mark tp (lower value) (tp_labels m))
                          (with_context (context_dimensions m) freq m))))
         (with_tp_labels (mark tp (lower value) (tp_labels m))
            (with_context (context_dimensions m) freq m)))) as Hgen.
  { intros freq Hfreq l Hl. simpl in *.
    destruct (decide (l = lower value)) as [->|Hne].
    - destruct Hflag; [left|right]; by apply mark_self.
    - rewrite Hfreq in Hl by done.
      destruct (Hm l Hl); [left|right]; by apply mark_mono. }
  destruct (negb _); simpl.
  - intros [= <-]. intros l Hl. simpl in *.
    destruct (decide (l = lower value)) as [->|Hne].
    + destruct Hflag; [left|right]; by apply mark_self.
    + rewrite lookup_insert_ne in Hl by done.
      destruct (Hm l Hl); [left|right]; by apply mark_mono.
  - destruct (label2freq m !! lower value) as [n|]; simpl; [|done].
    intros [= <-]. apply Hgen. intros l Hne. by rewrite lookup_insert_ne.
Qed.

Lemma collect_cui_labels_fields (us : list SemEHRAnn) (m : LabelModel) :
  label2freq (collect_cui_labels us m) = label2freq m
  /\ tp_labels (collect_cui_labels us m) = tp_labels m
  /\ fp_labels (collect_cui_labels us m) = fp_labels m
  /\ lm_label (collect_cui_labels us m) = lm_label m.
Proof.
  unfold collect_cui_labels. revert m.
  induction us as [|u rest IH]; intros m; simpl; [done|].
  destruct (IH (with_cui2label (<[cui u := pref u]> (lm_cui2label m)) m))
    as (-> & -> & -> & ->). done.
Qed.

Lemma collect_cui_labels_marked (us : list SemEHRAnn) (m : LabelModel) :
  dimensions_marked m -> dimensions_marked (collect_cui_labels us m).
Proof.
  intros Hm l. destruct (collect_cui_labels_fields us m) as (-> & -> & -> & _).
  apply Hm.
Qed.

Lemma tfidf_ann_step_marked (cr : CustomisedRecoginiser) (gold : list EDIRAnn)
  (st st' : LabelModel * Z * Z * list ann_id) (a : Mention) :
  dimensions_marked st.1.1.1 -> tfidf_ann_step cr gold st a = Ok st' ->
  dimensions_marked st'.1.1.1.
Proof.
  destruct st as [[[m tp_freq] fp_freq] ids]. simpl. intros Hm.
  unfold tfidf_ann_step.
  pose proof (add_label_dimension_marked (get_ann_dim_label a false) None None m Hm) as Hm1.
  fold (add_label_dimension_by_annotation a None None m) in Hm1.
  destruct (polarity_differs _ a); [by intros [= <-]|].
  destruct (fold_left _ gold _) as [[matched tp_freq'] ids'].
  destruct (get_prior_anns cr a) as [sanns|e]; simpl; [|done].
  destruct (for_each _ (context_of sanns) _) as [m2|e] eqn:E; simpl; [|done].
  intros [= <-]. simpl.
  eapply (for_each_invariant dimensions_marked); [|apply collect_cui_labels_marked, Hm1|exact E].
  intros s c s' Hs Hadd. eapply add_context_dimension_marked; [exact Hs| |exact Hadd].
  destruct matched; simpl; [left|right]; by eexists.
Qed.

Lemma collect_tfidf_doc_marked (cm : Concept2Mapping) (st st' : LabelModel * Z * Z)
  (d : Document) :
  dimensions_marked st.1.1 -> collect_tfidf_doc cm st d = Ok st' ->
  dimensions_marked st'.1.1.
Proof.
  destruct st as [[m tp_freq] fp_freq]. simpl. intros Hm.
  unfold collect_tfidf_doc.
  destruct (doc_gold d) as [gd|]; [|by intros [= <-]].
  destruct (get_ess_entities gd) as [gold|e]; simpl; [|done].
  destruct (for_each _ _ _) as [[[[m2 tp2] fp2] ids2]|e] eqn:E; simpl; [|done].
  intros [= <-]. simpl.
  apply (for_each_invariant (fun st => dimensions_marked st.1.1.1)) in E; [done| |done].
  intros s x s'. apply tfidf_ann_step_marked.
Qed.

Lemma collect_tfidf_dimensions_marked (cm : Concept2Mapping) (ann_dir : list Document)
  (m m' : LabelModel) :
  dimensions_marked m -> collect_tfidf_dimensions cm ann_dir m = Ok m' ->
  dimensions_marked m'.
Proof.
  intros Hm. unfold collect_tfidf_dimensions.
  destruct (for_each _ _ _) as [[[m2 tp2] fp2]|e] eqn:E; simpl; [|done].
  intros [= <-].
  apply (for_each_invariant (fun st => dimensions_marked st.1.1)) in E; [done| |done].
  intros s x s'. apply collect_tfidf_doc_marked.
Qed.

Lemma tfidf_scores_loop_total (m : LabelModel) (xs : list (string * Z))
  (acc : list (string * Q)) :
  Forall (fun x : string * Z => x.1 ∈ tp_labels m \/ x.1 ∈ fp_labels m) xs ->
  exists df,
    for_each (fun df '(l, freq) => score ← tfidf_score m l freq; Ok (df ++ [(l, score)]))
             xs acc = Ok df.
Proof.
  intros Hall. revert acc.
  induction Hall as [|[l freq] rest Hl _ IH]; intros acc; simpl; [by eexists|].
  destruct (tfidf_score_marked m l freq Hl) as [s ->]. simpl. apply IH.
Qed.

Lemma tfidf_scores_total (m : LabelModel) :
  dimensions_marked m -> exists df, tfidf_scores m = Ok df.
Proof.
  intros Hm. apply tfidf_scores_loop_total.
  apply Forall_forall. intros [l freq] Hl. apply elem_of_map_to_list in Hl.
  apply Hm. by eexists.
Qed.

Lemma get_top_tfidf_dimensions_total (k : option Z) (m : LabelModel) :
  dimensions_marked m -> exists dims m', get_top_tfidf_dimensions k m = Ok (dims, m').
Proof.
  intros Hm. unfold get_top_tfidf_dimensions.
  destruct (tfidf_dims m); [by eexists _, _|].
  destruct (tfidf_scores_total m Hm) as [df ->]. simpl. by eexists _, _.
Qed.

Lemma get_top_tfidf_dimensions_marked (k : option Z) (m m' : LabelModel)
  (dims : list string) :
  dimensions_marked m -> get_top_tfidf_dimensions k m = Ok (dims, m') ->
  dimensions_marked m'.
Proof.
  intros Hm. unfold get_top_tfidf_dimensions.
  destruct (tfidf_dims m); [by intros [= _ <-]|].
  destruct (tfidf_scores m); simpl; [|done]. by intros [= _ <-].
Qed.

Lemma collected_marked (m : LabelModel) : collected m -> dimensions_marked m.
Proof.
  induction 1 as [label_ max_|value tp fp m _ IH|value tp fp m m' _ IH Hflag Hadd
                 |cm ann_dir m m' _ IH Hc|value m _ IH|value m _ IH|k m dims m' _ IH Hsel].
  - intros l [freq Hl]. simpl in Hl. by rewrite lookup_empty in Hl.
  - by apply add_label_dimension_marked.
  - by eapply add_context_dimension_marked.
  - by eapply collect_tfidf_dimensions_marked.
  - exact IH.
  - exact IH.
  - by eapply get_top_tfidf_dimensions_marked.
Qed.

(** C5, as the code has it. In a model built by the collection pass,
    where every call of [add_context_dimension] passes [tp] or [fp], every
    context dimension is in the TP set or in the FP set, and
    [get_top_tfidf_dimensions] returns its selection: no division by zero
    occurs. *)
Theorem collected_model_selects_dimensions (m : LabelModel) (k : option Z) :
  collected m ->
  dimensions_marked m
  /\ exists dims m', get_top_tfidf_dimensions k m = Ok (dims, m').
Proof.
  intros Hm. apply collected_marked in Hm.
  split; [done|]. by apply get_top_tfidf_dimensions_total.
Qed.

(** The only exception of the scoring loop is the division by zero. *)
Lemma tfidf_scores_loop_raises (m : LabelModel) (xs : list (string * Z))
  (acc : list (string * Q)) (e : exn) :
  for_each (fun df '(l, freq) => score ← tfidf_score m l freq; Ok (df ++ [(l, score)]))
           xs acc = Raise e ->
  e = ZeroDivisionError.
Proof.
  revert acc. induction xs as [|[l freq] rest IH]; intros acc; simpl; [done|].
  destruct (tfidf_score m l freq) as [s|e'] eqn:E; simpl; [apply IH|].
  intros [= <-]. unfold tfidf_score in E.
  destruct (_ =? 0); [by injection E|].
  destruct (_ || _); [destruct (_ && _); done|].
  destruct (bool_decide _); done.
Qed.

(** Without a cached selection, one dimension in neither set is enough
    for [get_top_tfidf_dimensions] to raise. *)
Lemma get_top_tfidf_dimensions_raises (k : option Z) (m : LabelModel) (l : string)
  (freq : Z) :
  tfidf_dims m = None -> label2freq m !! l = Some freq ->
  l ∉ tp_labels m -> l ∉ fp_labels m ->
  get_top_tfidf_dimensions k m = Raise ZeroDivisionError.
Proof.
  intros Hcache Hl Htp Hfp. unfold get_top_tfidf_dimensions. rewrite Hcache.
  destruct (tfidf_scores m) as [df|e] eqn:E; simpl.
  - destruct (tfidf_scores_member m df l freq E Hl) as (s & Hs & _).
    rewrite tfidf_score_unmarked in Hs by done. done.
  - apply tfidf_scores_loop_raises in E. by subst.
Qed.

(** The model that [collect_tfidf_dimensions] builds from the stroke
    document. *)
Lemma collected_model_selects_dimensions_example :
  exists m,
    collect_tfidf_dimensions stroke_mapping [stroke_document] stroke_model = Ok m
    /\ collected m
    /\ dimensions_marked m
    /\ exists dims m', get_top_tfidf_dimensions (Some 20) m = Ok (dims, m').
Proof.
  eexists. split; [by vm_compute|].
  match goal with |- collected ?m /\ _ => assert (collected m) as Hm end.
  { apply (collected_tfidf stroke_mapping [stroke_document] stroke_model);
      [apply (collected_new "stroke" None)|by vm_compute]. }
  split; [exact Hm|].
  exact (collected_model_selects_dimensions _ (Some 20) Hm).
Defined.

(** C5, as the claim has it, fails. A dimension added without [tp] and
    without [fp] is in neither set, and [get_top_tfidf_dimensions] then
    raises [ZeroDivisionError]; the dimension is not scored zero. The
    models that [collect_dimensions] builds are of this kind. *)
Lemma unmarked_dimension_divides_by_zero :
  (exists m,
    add_context_dimension "Fever" None None (new_LabelModel "stroke" None) = Ok m
    /\ label2freq m !! "fever" = Some 1
    /\ bool_decide ("fever" ∈ tp_labels m) = false
    /\ bool_decide ("fever" ∈ fp_labels m) = false
    /\ get_top_tfidf_dimensions (Some 20) m = Raise ZeroDivisionError)
  /\ (exists m,
    collect_dimensions stroke_mapping [stroke_document] stroke_model = Ok m
    /\ get_top_tfidf_dimensions (Some 20) m = Raise ZeroDivisionError).
Proof.
  split.
  - eexists. split; [reflexivity|]. by vm_compute.
  - eexists. split; [by vm_compute|]. by vm_compute.
Qed.

(** ** Loading training data *)

Lemma get_prior_anns_returns {A : Type} `{Ann A} (cr : CustomisedRecoginiser) (ann : A) :
  existsb (overlap ann) (sentences cr) = true -> exists r, get_prior_anns cr ann = Ok r.
Proof.
  intros Hs. unfold get_prior_anns, get_previous_sentences, get_ann_sentence.
  destruct (first_overlapping ann (sentences cr)) eqn:E; [by eexists|].
  apply first_overlapping_None in E. congruence.
Qed.

(** Once every gold id is taken, the loop over the gold entities changes
    nothing. *)
Lemma load_match_none_left (label_ : string) (a : Mention) (gold : list EDIRAnn)
  (matched : bool) (k : Z) :
  fold_left (load_match_step label_ a) gold (matched, k, []) = (matched, k, []).
Proof. induction gold as [|g rest IH]; simpl; [done|exact IH]. Qed.

(** With one gold entity of the label, not yet matched and overlapping
    the annotation, the loop matches it once and counts no multiple. *)
Lemma load_match_single (label_ : string) (a : Mention) (gold : list EDIRAnn)
  (g : EDIRAnn) (k : Z) :
  filter (fun e => String.eqb (label e) label_) gold = [g] ->
  overlap g a = true ->
  fold_left (load_match_step label_ a) gold (false, k, [id g]) = (true, k, []).
Proof.
  intros Hf Ho. induction gold as [|x rest IH]; simpl in *; [done|].
  rewrite filter_cons in Hf.
  destruct (String.eqb (label x) label_) eqn:E; simpl in Hf.
  - injection Hf as -> Hrest.
    unfold in_list. rewrite bool_decide_eq_true_2 by (by left).
    rewrite Ho. simpl. rewrite decide_True by done.
    apply load_match_none_left.
  - rewrite andb_false_r.
    destruct (in_list (id x) [id g]); by apply IH.
Qed.

(** A selection, once made, is what every later call returns. *)
Lemma get_top_tfidf_dimensions_cached (k k' : option Z) (m m' : LabelModel)
  (dims : list string) :
  get_top_tfidf_dimensions k m = Ok (dims, m') ->
  get_top_tfidf_dimensions k' m' = Ok (dims, m')
  /\ max_dimensions m' = max_dimensions m /\ lm_label m' = lm_label m.
Proof.
  unfold get_top_tfidf_dimensions.
  destruct (tfidf_dims m) as [d|] eqn:E.
  - intros [= <- <-]. by rewrite E.
  - destruct (tfidf_scores m); simpl; [|done]. by intros [= <- <-].
Qed.

Lemma encode_ann_returns (a : Mention) (context_anns : list Mention) (m m' : LabelModel)
  (dims : list string) :
  get_top_tfidf_dimensions (max_dimensions m) m = Ok (dims, m') ->
  exists encoded, encode_ann a context_anns m = Ok (encoded, m').
Proof. intros Hsel. unfold encode_ann. rewrite Hsel. simpl. by eexists. Qed.

(** C7, as the code has it. A document has one gold entity [g] of the
    label of the model; [get_anns_by_label] finds two annotations, each
    overlapped by [g] (as [g.overlap(a)] computes it) and each in a
    sentence; the selection of dimensions returns. Then [load_data]
    returns two rows, the first labelled [1] and the second [0], no false
    negative, and a count of multiple true positives that is still zero. *)
Theorem load_data_two_mentions_one_gold (cm : Concept2Mapping) (d : Document)
  (gd : EDIRDoc) (ignore_mappings : list string) (m m' : LabelModel)
  (gold : list EDIRAnn) (g : EDIRAnn) (a1 a2 : Mention) (dims : list string) :
  let cr := new_CustomisedRecoginiser (doc_json d) cm in
  doc_gold d = Some gd ->
  get_ess_entities gd = Ok gold ->
  filter (fun e => String.eqb (label e) (lm_label m)) gold = [g] ->
  get_anns_by_label cr (lm_label m) ignore_mappings = [a1; a2] ->
  overlap g a1 = true -> overlap g a2 = true ->
  existsb (overlap a1) (sentences cr) = true ->
  existsb (overlap a2) (sentences cr) = true ->
  get_top_tfidf_dimensions (max_dimensions m) m = Ok (dims, m') ->
  exists c1 c2 x1 x2,
    get_prior_anns cr a1 = Ok c1 /\ get_prior_anns cr a2 = Ok c2
    /\ encode_ann a1 (context_of c1) m = Ok (x1, m')
    /\ encode_ann a2 (context_of c2) m' = Ok (x2, m')
    /\ load_data cm [d] ignore_mappings m = Ok (mkData [x1; x2] [[1]; [0]] 0 0, m').
Proof.
  intros cr Hgd Hgold Hone Hanns Ho1 Ho2 Hs1 Hs2 Hsel.
  destruct (get_prior_anns_returns cr a1 Hs1) as [c1 Hc1].
  destruct (get_prior_anns_returns cr a2 Hs2) as [c2 Hc2].
  destruct (get_top_tfidf_dimensions_cached _ (max_dimensions m') _ _ _ Hsel)
    as (Hsel' & Hmax & Hlabel).
  destruct (encode_ann_returns a1 (context_of c1) m m' dims Hsel) as [x1 Hx1].
  destruct (encode_ann_returns a2 (context_of c2) m' m' dims Hsel') as [x2 Hx2].
  exists c1, c2, x1, x2. repeat (split; [done|]).
  unfold load_data. simpl. rewrite Hgd, Hgold. simpl. fold cr. rewrite Hanns. simpl.
  rewrite Hc1. simpl.
  unfold gold_ids. rewrite Hone. simpl.
  rewrite (load_match_single _ _ _ _ _ Hone Ho1). rewrite Hx1. simpl.
  rewrite Hc2. simpl. rewrite load_match_none_left. rewrite Hx2. simpl.
  done.
Qed.

(** The stroke document: one gold stroke, two mentions that it overlaps. *)
Lemma load_data_two_mentions_one_gold_example :
  exists m' c1 c2 x1 x2,
    let cr := new_CustomisedRecoginiser (doc_json stroke_document) stroke_mapping in
    get_prior_anns cr first_mention = Ok c1 /\ get_prior_anns cr second_mention = Ok c2
    /\ encode_ann first_mention (context_of c1) stroke_model = Ok (x1, m')
    /\ encode_ann second_mention (context_of c2) m' = Ok (x2, m')
    /\ load_data stroke_mapping [stroke_document] [] stroke_model
       = Ok (mkData [x1; x2] [[1]; [0]] 0 0, m').
Proof.
  eexists.
  eapply (load_data_two_mentions_one_gold stroke_mapping stroke_document stroke_gold []
            stroke_model _ [gold_stroke] gold_stroke first_mention second_mention);
    reflexivity.
Defined.

(** C7, as the claim has it, fails. In the stroke document the only gold
    stroke overlaps both mentions and both mentions overlap it; the first
    mention is matched, both give a row, and the count of multiple true
    positives stays at zero instead of growing by one. *)
Lemma load_data_counts_no_multiple :
  let cr := new_CustomisedRecoginiser (doc_json stroke_document) stroke_mapping in
  get_ess_entities stroke_gold = Ok [gold_stroke]
  /\ label gold_stroke = lm_label stroke_model
  /\ get_anns_by_label cr (lm_label stroke_model) [] = [first_mention; second_mention]
  /\ overlap gold_stroke first_mention = true /\ overlap first_mention gold_stroke = true
  /\ overlap gold_stroke second_mention = true /\ overlap second_mention gold_stroke = true
  /\ exists data m',
      load_data stroke_mapping [stroke_document] [] stroke_model = Ok (data, m')
      /\ length (X data) = 2%nat /\ Y data = [[1]; [0]] /\ mtp data = 0 /\ mtp data <> 1.
Proof.
  simpl. repeat (split; [by vm_compute|]).
  eexists _, _. split; [by vm_compute|]. by vm_compute.
Qed.

(** ** Prediction without a usable model *)

(** C8, as the code has it. When the model file does not exist, or
    when the examples are at most [_min_sample_size] and loading the
    persisted models and predicting with them, which the code still does
    first, raises nothing, the prediction vector of [predict_use_model]
    is all ones, whatever the feature values are, and it is that vector
    that the scoring loop of [predict_use_model] compares with [Y].
    Without a model file the performance record reaches the scoring loop
    unchanged. *)
Theorem predict_use_model_falls_back_to_positive
  (isfile : string -> bool) (_min_sample_size : Z)
  (pca_transform : string -> list (list Z) -> result (list (list Q)))
  (model_predict : string -> list (list Q) -> result (list Q))
  (X Y : list (list Z)) (fns multiple_tps : Z) (model_file : string)
  (performance : LabelPerformance) (pca_model_file : option string) :
  isfile model_file = false
  \/ (Z.of_nat (length X) <= _min_sample_size
      /\ exists P,
          (X_new ← match pca_model_file with
                   | Some f => pca_transform f X
                   | None => Ok (map (map inject_Z) X)
                   end;
           model_predict model_file X_new) = Ok P) ->
  exists performance',
    predictions isfile _min_sample_size pca_transform model_predict
                X fns multiple_tps model_file performance pca_model_file
    = Ok (ones (length X), performance')
    /\ (isfile model_file = false -> performance' = performance)
    /\ predict_use_model isfile _min_sample_size pca_transform model_predict
         X Y fns multiple_tps model_file performance pca_model_file
       = for_each (score_prediction (ones (length X)) Y) (seq 0 (length X)) performance'.
Proof.
  intros Hcase.
  assert (exists performance',
            predictions isfile _min_sample_size pca_transform model_predict
                        X fns multiple_tps model_file performance pca_model_file
            = Ok (ones (length X), performance')
            /\ (isfile model_file = false -> performance' = performance))
    as (performance' & Hpred & Hsame).
  { unfold predictions.
    destruct (isfile model_file) eqn:Efile; simpl.
    - destruct Hcase as [|[Hsize [P HP]]]; [done|].
      destruct (match pca_model_file with
                | Some f => pca_transform f X
                | None => Ok (map (map inject_Z) X)
                end) as [X_new|e]; simpl in *; [|done].
      rewrite HP. simpl.
      rewrite (proj2 (Z.leb_le _ _) Hsize). by eexists.
    - by eexists. }
  exists performance'. split; [done|]. split; [done|].
  unfold predict_use_model. rewrite Hpred. simpl.
  unfold ones. by rewrite length_replicate.
Qed.

(** Two rows with different features: without a model file, and with a
    model file, a classifier that answers [0] for every row and a minimum
    sample size of five. *)
Lemma predict_use_model_falls_back_to_positive_example :
  (exists performance',
    predictions no_file 5 identity_pca all_negative [[1; 0]; [0; 7]] 3 1 "stroke_DT.model"
                (new_LabelPerformance "stroke") None
    = Ok ([1%Q; 1%Q], performance')
    /\ (no_file "stroke_DT.model" = false -> performance' = new_LabelPerformance "stroke")
    /\ predict_use_model no_file 5 identity_pca all_negative [[1; 0]; [0; 7]] [[1]; [0]]
         3 1 "stroke_DT.model" (new_LabelPerformance "stroke") None
       = for_each (score_prediction [1%Q; 1%Q] [[1]; [0]]) [0%nat; 1%nat] performance')
  /\ (exists performance',
    predictions any_file 5 identity_pca all_negative [[1; 0]; [0; 7]] 3 1 "stroke_DT.model"
                (new_LabelPerformance "stroke") None
    = Ok ([1%Q; 1%Q], performance')
    /\ (any_file "stroke_DT.model" = false -> performance' = new_LabelPerformance "stroke")
    /\ predict_use_model any_file 5 identity_pca all_negative [[1; 0]; [0; 7]] [[1]; [0]]
         3 1 "stroke_DT.model" (new_LabelPerformance "stroke") None
       = for_each (score_prediction [1%Q; 1%Q] [[1]; [0]]) [0%nat; 1%nat] performance').
Proof.
  split.
  - apply (predict_use_model_falls_back_to_positive no_file 5 identity_pca all_negative
             [[1; 0]; [0; 7]] [[1]; [0]] 3 1 "stroke_DT.model"
             (new_LabelPerformance "stroke") None).
    left. reflexivity.
  - apply (predict_use_model_falls_back_to_positive any_file 5 identity_pca all_negative
             [[1; 0]; [0; 7]] [[1]; [0]] 3 1 "stroke_DT.model"
             (new_LabelPerformance "stroke") None).
    right. split; [simpl; lia|]. eexists. reflexivity.
Defined.

(** C8, as the claim has it, fails. The model file exists and there is
    no example, which is at most the minimum sample size of five. The code
    loads the classifier and predicts before it looks at the number of
    examples: the classifier raises, and no example is predicted
    positive. *)
Lemma predict_use_model_small_sample_raises :
  any_file "stroke_DT.model" = true
  /\ Z.of_nat (length (@nil (list Z))) <= 5
  /\ predictions any_file 5 identity_pca rejects_empty [] 0 0 "stroke_DT.model"
       (new_LabelPerformance "stroke") None
     = Raise ValueError
  /\ predict_use_model any_file 5 identity_pca rejects_empty [] [] 0 0 "stroke_DT.model"
       (new_LabelPerformance "stroke") None
     = Raise ValueError.
Proof. split; [done|]. split; [simpl; lia|]. split; reflexivity. Qed.

(** *** Scoring a vector of ones *)

Lemma Qeq_bool_one (v : Z) : Qeq_bool 1 (inject_Z v) = (v =? 1).
Proof.
  destruct (Z.eqb_spec v 1) as [->|Hne]; [done|].
  apply not_true_is_false. intros He. apply Qeq_bool_iff in He.
  unfold Qeq in He. simpl in He. lia.
Qed.

Lemma score_prediction_one (n : nat) (Y : list (list Z)) (p : LabelPerformance)
  (idx : nat) (v : Z) :
  (idx < n)%nat -> Y !! idx = Some [v] ->
  score_prediction (ones n) Y p idx
  = Ok (if v =? 1 then increase_true_positive 1 p else increase_false_positive 1 p).
Proof.
  intros Hidx Hy. unfold score_prediction, ones.
  rewrite lookup_replicate_2 by done. rewrite Hy. simpl.
  rewrite Qeq_bool_one. by destruct (v =? 1).
Qed.

Lemma add_counts_step (v tp fp : Z) (p : LabelPerformance) :
  add_counts tp fp
    (if v =? 1 then increase_true_positive 1 p else increase_false_positive 1 p)
  = add_counts ((if v =? 1 then 1 else 0) + tp) ((if negb (v =? 1) then 1 else 0) + fp) p.
Proof.
  unfold add_counts, increase_true_positive, increase_false_positive.
  destruct (v =? 1); simpl; f_equal; lia.
Qed.

Lemma score_ones_loop (n : nat) (Y : list (list Z)) :
  Forall (fun y => exists v, y = [v]) Y ->
  forall (k i : nat) (p : LabelPerformance),
    (i + k <= n)%nat -> (i + k <= length Y)%nat ->
    for_each (score_prediction (ones n) Y) (seq i k) p
    = Ok (add_counts (count is_positive (take k (drop i Y)))
                     (count (fun y => negb (is_positive y)) (take k (drop i Y))) p).
Proof.
  intros Hsingle. induction k as [|k IH]; intros i p Hn Hlen; simpl.
  - unfold add_counts, increase_true_positive, increase_false_positive.
    destruct p; simpl. unfold count; simpl. f_equal; f_equal; lia.
  - destruct (lookup_lt_is_Some_2 Y i) as [y Hy]; [lia|].
    destruct (proj1 (Forall_forall _ _) Hsingle y) as [v ->];
      [by eapply list_elem_of_lookup_2|].
    rewrite (score_prediction_one n Y p i v) by (done || lia). simpl.
    rewrite IH by lia.
    rewrite (drop_S _ _ _ Hy). simpl. rewrite !count_cons. simpl.
    by rewrite add_counts_step.
Qed.

(** With the fallback of C8 and one label per row, [predict_use_model]
    ends with one more true positive for every row labelled [[1]] and one
    more false positive for every other row. *)
Lemma predict_use_model_scores_fallback
  (isfile : string -> bool) (_min_sample_size : Z)
  (pca_transform : string -> list (list Z) -> result (list (list Q)))
  (model_predict : string -> list (list Q) -> result (list Q))
  (X Y : list (list Z)) (fns multiple_tps : Z) (model_file : string)
  (performance performance' : LabelPerformance) (pca_model_file : option string) :
  predictions isfile _min_sample_size pca_transform model_predict
              X fns multiple_tps model_file performance pca_model_file
  = Ok (ones (length X), performance') ->
  length Y = length X -> Forall (fun y => exists v, y = [v]) Y ->
  predict_use_model isfile _min_sample_size pca_transform model_predict
                    X Y fns multiple_tps model_file performance pca_model_file
  = Ok (add_counts (count is_positive Y) (count (fun y => negb (is_positive y)) Y)
                   performance').
Proof.
  intros HP Hlen Hsingle. unfold predict_use_model. rewrite HP. simpl.
  unfold ones at 2. rewrite length_replicate.
  rewrite (score_ones_loop (length X) Y Hsingle) by lia.
  rewrite drop_0, <- Hlen, firstn_all. done.
Qed.

(** * Further properties of the module *)

(** ** The algebra of spans *)

(** X1. Outside strict containment [overlap] is symmetric: for two spans
    with [start <= end], neither strictly inside the other, [a.overlap(b)]
    and [b.overlap(a)] agree. *)
Theorem overlap_symmetric_unless_inside {A B : Type} `{Ann A} `{Ann B} (a : A) (b : B) :
  start a <= end_ a -> start b <= end_ b ->
  ~ (start a < start b /\ end_ b < end_ a) ->
  ~ (start b < start a /\ end_ a < end_ b) ->
  overlap a b = overlap b a.
Proof.
  intros Ha Hb Hab Hba.
  destruct (overlap a b) eqn:Eab; destruct (overlap b a) eqn:Eba; try done.
  - destruct (overlap_asymmetric_only_inside b a Hb Ha Eba Eab). lia.
  - destruct (overlap_asymmetric_only_inside a b Ha Hb Eab Eba). lia.
Qed.

Lemma overlap_symmetric_unless_inside_example :
  let a := new_BasicAnn "acute stroke" 0 12 in
  let b := new_BasicAnn "stroke of the left" 6 24 in
  overlap a b = overlap b a.
Proof.
  apply (overlap_symmetric_unless_inside (new_BasicAnn "acute stroke" 0 12)
           (new_BasicAnn "stroke of the left" 6 24)); vm_compute; try discriminate.
  - intros [_ Hlt]. discriminate Hlt.
  - intros [Hlt _]. discriminate Hlt.
Defined.

(** X2. One of [a.overlap(b)] and [b.overlap(a)] holds exactly when the
    two closed intervals meet. *)
Theorem overlap_either_way_is_intersection {A B : Type} `{Ann A} `{Ann B} (a : A) (b : B) :
  start a <= end_ a -> start b <= end_ b ->
  (overlap a b || overlap b a = true <-> start a <= end_ b /\ start b <= end_ a).
Proof.
  intros Ha Hb. rewrite orb_true_iff, !overlap_true. lia.
Qed.

Lemma overlap_either_way_is_intersection_example :
  overlap span_0_10 span_2_5 || overlap span_2_5 span_0_10 = true
  <-> start span_0_10 <= end_ span_2_5 /\ start span_2_5 <= end_ span_0_10.
Proof.
  apply (overlap_either_way_is_intersection span_0_10 span_2_5); vm_compute; discriminate.
Defined.

(** X3. A span overlaps every span that is larger than it: the
    implication from [is_larger] to [overlap] holds in this direction. *)
Theorem smaller_overlaps_larger {A B : Type} `{Ann A} `{Ann B} (a : A) (b : B) :
  start b <= end_ b -> is_larger a b = true -> overlap b a = true.
Proof.
  intros Hb Hl. apply is_larger_true in Hl. apply overlap_true. lia.
Qed.

Lemma smaller_overlaps_larger_example : overlap span_2_5 span_0_10 = true.
Proof.
  apply (smaller_overlaps_larger span_0_10 span_2_5); vm_compute; [discriminate|done].
Defined.

(** X4. [is_larger] is a strict order on spans: no span is larger than
    itself, two spans are never each larger than the other, and the
    relation is transitive. *)
Theorem is_larger_strict_order {A : Type} `{Ann A} (a b c : A) :
  is_larger a a = false
  /\ (is_larger a b = true -> is_larger b a = false)
  /\ (is_larger a b = true -> is_larger b c = true -> is_larger a c = true).
Proof.
  split; [|split].
  - apply not_true_is_false. rewrite is_larger_true. lia.
  - intros Hab. apply not_true_is_false. rewrite is_larger_true in *. lia.
  - rewrite !is_larger_true. lia.
Qed.

(** ** The gold-standard document *)


Lemma ent_span_no_offset (ps : list XmlPart) (cur : Z * Z) :
  ent_span None ps cur = match ps with [] => Ok cur | _ => Raise TypeError end.
Proof. destruct ps; done. Qed.










(** X6. The ids of the annotations that [get_ess_entities] returns are
    their positions in the returned list, so no two of them share an id. *)
Theorem get_ess_entities_ids_are_positions (d : EDIRDoc) (es : list EDIRAnn) :
  get_ess_entities d = Ok es ->
  (forall i e, es !! i = Some e -> id e = IntId (Z.of_nat i))
  /\ NoDup (map id es).
Proof.
  unfold get_ess_entities. intros Hes.
  assert (map id es = map (fun i => IntId (Z.of_nat i)) (seq 0 (length es))) as Hids.
  { revert Hes. generalize (get_word_offset_start d). intros offset.
    assert (forall ents acc res,
      map id acc = map (fun i => IntId (Z.of_nat i)) (seq 0 (length acc)) ->
      for_each (ess_entity_step offset) ents acc = Ok res ->
      map id res = map (fun i => IntId (Z.of_nat i)) (seq 0 (length res))) as Hloop.
    { induction ents as [|e rest IH]; intros acc res Hacc; simpl; [by intros [= <-]|].
      destruct (ess_entity_step offset acc e) as [acc'|err] eqn:E; simpl; [|done].
      apply IH. unfold ess_entity_step in E.
      destruct (ent_type e) as [ty|]; [|by injection E as <-].
      destruct (startswith ty "label:"); [by injection E as <-|].
      destruct (joined_text (ent_parts e)) as [text|]; simpl in E; [|done].
      destruct (ent_span offset (ent_parts e) (-1, -1)) as [[b f]|]; simpl in E; [|done].
      injection E as <-. rewrite map_app, length_app. simpl.
      replace (length acc + 1)%nat with (S (length acc)) by lia.
      rewrite seq_S, map_app, Hacc. done. }
    intros Hes. exact (Hloop _ [] _ eq_refl Hes). }
  split.
  - intros i e Hi.
    assert (map id es !! i = Some (id e)) as Hm by (by rewrite list_lookup_fmap, Hi).
    rewrite Hids, list_lookup_fmap in Hm.
    assert (i < length es)%nat as Hlt by (by eapply lookup_lt_Some).
    rewrite (lookup_seq_lt _ _ _ Hlt) in Hm. simpl in Hm. congruence.
  - rewrite Hids. apply NoDup_fmap_2; [|apply NoDup_seq].
    intros x y [= Hxy]. lia.
Qed.



Lemma get_ess_entities_ids_are_positions_example :
  exists es,
    get_ess_entities parts_gold = Ok es
    /\ (forall i e, es !! i = Some e -> id e = IntId (Z.of_nat i))
    /\ NoDup (map id es).
Proof.
  eexists. split; [reflexivity|].
  apply (get_ess_entities_ids_are_positions parts_gold). reflexivity.
Defined.




(** ** The SemEHR document *)

Lemma fold_left_invariant {A S : Type} (P : S -> Prop) (f : S -> A -> S) (xs : list A) (s : S) :
  (forall s x, P s -> P (f s x)) -> P s -> P (fold_left f xs s).
Proof.
  intros Hf. revert s. induction xs as [|x rest IH]; intros s Hs; simpl; [done|].
  apply IH. by apply Hf.
Qed.

Lemma numbered_inj (prefix : string) (n m : nat) :
  numbered prefix n = numbered prefix m -> n = m.
Proof.
  unfold numbered. intros [= Heq].
  apply (inj (String.app prefix)) in Heq. by apply (inj pretty) in Heq.
Qed.

Lemma NoDup_numbered (prefix : string) (n : nat) :
  NoDup (map (numbered prefix) (seq 1 n)).
Proof.
  apply NoDup_fmap_2; [|apply NoDup_seq].
  intros x y Hxy. by eapply numbered_inj.
Qed.

Lemma load_ann_ids_numbered (d : SemEHRAnnDoc) (ann : RawAnn) :
  ids_numbered d -> ids_numbered (load_ann d ann).
Proof.
  intros (Ha & Hp & Hs). unfold ids_numbered.
  destruct ann; simpl; rewrite ?map_app, ?length_app; simpl;
    rewrite ?Nat.add_1_r, ?seq_S, ?map_app, ?Ha, ?Hp, ?Hs; simpl; done.
Qed.

Lemma load_anns_ids_numbered (annotations : list (list RawAnn)) :
  ids_numbered (load_anns annotations).
Proof.
  unfold load_anns. apply fold_left_invariant; [|done].
  intros d anns Hd. apply fold_left_invariant; [|done].
  intros d' ann. apply load_ann_ids_numbered.
Qed.

Lemma load_anns_size (annotations : list (list RawAnn)) (d : SemEHRAnnDoc) :
  doc_size (fold_left (fun d anns => fold_left load_ann anns d) annotations d)
  = (doc_size d + length (concat annotations))%nat.
Proof.
  revert d. induction annotations as [|anns rest IH]; intros d; simpl; [lia|].
  rewrite IH, length_app.
  assert (forall d, doc_size (fold_left load_ann anns d) = (doc_size d + length anns)%nat)
    as ->; [|lia].
  clear. induction anns as [|ann anns IH]; intros d; simpl; [lia|].
  rewrite IH. unfold doc_size.
  destruct ann; simpl; rewrite ?length_app; simpl; lia.
Qed.

(** X8. [load_anns] puts every annotation of the JSON record in exactly
    one of its four collections, and numbers the concept mentions
    [cui-1], [cui-2], ..., the phenotype mentions [phe-1], ... and the
    sentences [sent-1], ... in the order read; within a collection no two
    annotations share an id. *)
Theorem load_anns_numbers_annotations (annotations : list (list RawAnn)) :
  let d := load_anns annotations in
  map id (doc_anns d) = map (numbered "cui-") (seq 1 (length (doc_anns d)))
  /\ map id (doc_phenotype_anns d)
     = map (numbered "phe-") (seq 1 (length (doc_phenotype_anns d)))
  /\ map id (doc_sentences d) = map (numbered "sent-") (seq 1 (length (doc_sentences d)))
  /\ NoDup (map id (doc_anns d)) /\ NoDup (map id (doc_phenotype_anns d))
  /\ NoDup (map id (doc_sentences d))
  /\ (length (doc_anns d) + length (doc_phenotype_anns d) + length (doc_sentences d)
      + length (doc_others d))%nat = length (concat annotations).
Proof.
  simpl. destruct (load_anns_ids_numbered annotations) as (Ha & Hp & Hs).
  repeat split; try done.
  - rewrite Ha. apply NoDup_numbered.
  - rewrite Hp. apply NoDup_numbered.
  - rewrite Hs. apply NoDup_numbered.
  - pose proof (load_anns_size annotations (mkSemEHRAnnDoc [] [] [] [])) as Hsize.
    unfold doc_size in Hsize. simpl in Hsize. exact Hsize.
Qed.

(** ** Sentences and context *)

(** X9. Whatever its name says, [get_prior_anns] returns the annotations
    of the sentence of the annotation itself: it agrees with
    [get_same_sentence_anns] whenever that returns a dict, and raises where
    that returns [None]. *)
Theorem get_prior_anns_is_same_sentence {A : Type} `{Ann A} (cr : CustomisedRecoginiser)
  (ann : A) :
  get_prior_anns cr ann =
  match get_same_sentence_anns cr ann with
  | Some r => Ok r
  | None => Raise TypeError
  end.
Proof.
  unfold get_prior_anns, get_same_sentence_anns, get_previous_sentences.
  destruct (get_ann_sentence cr ann) as [sent|]; [|done].
  simpl. unfold last_slice. rewrite last_snoc. done.
Qed.

Lemma get_prior_anns_sentence {A : Type} `{Ann A} (cr : CustomisedRecoginiser) (ann : A)
  (r : SentAnns) :
  get_prior_anns cr ann = Ok r ->
  exists sent, get_ann_sentence cr ann = Some sent /\ r = get_sent_anns cr sent (Some ann).
Proof.
  unfold get_prior_anns, get_previous_sentences.
  destruct (get_ann_sentence cr ann) as [sent|]; [|done].
  simpl. unfold last_slice. rewrite last_snoc. simpl. intros [= <-]. by exists sent.
Qed.

(** X10. The context that [get_prior_anns] returns for an annotation
    holds exactly the concept and phenotype mentions of the document that
    overlap the sentence of the annotation and that the annotation does not
    overlap. A mention with [start <= end] is therefore never part of its
    own context. *)
Theorem get_prior_anns_context (cr : CustomisedRecoginiser) (m : Mention) (r : SentAnns) :
  get_prior_anns cr m = Ok r ->
  exists sent,
    get_ann_sentence cr m = Some sent
    /\ (forall a, a ∈ umls r <->
                  a ∈ annotations cr /\ overlap a sent = true /\ overlap m a = false)
    /\ (forall a, a ∈ phenotype r <->
                  a ∈ phenotypes cr /\ overlap a sent = true /\ overlap m a = false)
    /\ (start m <= end_ m -> m ∉ context_of r).
Proof.
  intros Hr. destruct (get_prior_anns_sentence cr m r Hr) as (sent & Hsent & ->).
  exists sent. split; [done|].
  assert (forall (B : Type) (HB : Ann B) (a : B) (l : list B),
    a ∈ filter (fun a : B => overlap a sent && negb (overlap m a)) l <->
    a ∈ l /\ overlap a sent = true /\ overlap m a = false) as Hfilter.
  { intros B HB a l. rewrite list_elem_of_filter.
    rewrite andb_True, negb_True, Is_true_true, Is_true_false. tauto. }
  split; [|split].
  - intros a. apply Hfilter.
  - intros a. apply Hfilter.
  - intros Hwf Hin. unfold context_of in Hin. simpl in Hin.
    assert (overlap m m = true) as Hself by (apply overlap_true; lia).
    apply elem_of_app in Hin as [Hin|Hin]; apply list_elem_of_fmap in Hin as (a & -> & Ha).
    + apply (Hfilter SemEHRAnn _) in Ha as (_ & _ & Hno).
      change (overlap (UMLS a) a = true) in Hself. congruence.
    + apply (Hfilter PhenotypeAnn _) in Ha as (_ & _ & Hno).
      change (overlap (Phenotype a) a = true) in Hself. congruence.
Qed.

Lemma get_prior_anns_context_example :
  let cr := new_CustomisedRecoginiser stroke_json stroke_mapping in
  exists r sent,
    get_prior_anns cr first_mention = Ok r
    /\ get_ann_sentence cr first_mention = Some sent
    /\ (forall a, a ∈ umls r <->
                  a ∈ annotations cr /\ overlap a sent = true
                  /\ overlap first_mention a = false)
    /\ (forall a, a ∈ phenotype r <->
                  a ∈ phenotypes cr /\ overlap a sent = true
                  /\ overlap first_mention a = false)
    /\ (start first_mention <= end_ first_mention -> first_mention ∉ context_of r).
Proof.
  simpl. eexists.
  refine (let H := get_prior_anns_context
                     (new_CustomisedRecoginiser stroke_json stroke_mapping)
                     first_mention _ eq_refl in _).
  destruct H as (sent & Hs). exists sent. split; [reflexivity|exact Hs].
Defined.

(** ** Selecting the annotations of a label *)

Lemma remove_first_subset {A : Type} `{EqDecision A} (x y : A) (xs : list A) :
  y ∈ remove_first x xs -> y ∈ xs.
Proof.
  induction xs as [|z rest IH]; simpl; [done|].
  destruct (decide (z = x)); [by right|].
  intros Hy. apply elem_of_cons in Hy as [->|Hy]; [left|right; by apply IH].
Qed.

Lemma concept_selected_selectable (cr : CustomisedRecoginiser) (label : string)
  (ignore_mappings : list string) (a : SemEHRAnn) :
  a ∈ annotations cr -> concept_selected cr label ignore_mappings a = true ->
  selectable cr label ignore_mappings (UMLS a).
Proof.
  intros Ha. unfold concept_selected, selectable, in_list.
  destruct (concept2label cr !! cui a) as [ts|]; [|done].
  case_bool_decide as Hign; [done|]. case_bool_decide as Ht; [|done].
  intros Hp. split; [done|]. split; [done|]. split; [done|]. by exists ts.
Qed.

Lemma phenotype_step_selectable (cr : CustomisedRecoginiser) (label : string)
  (ignore_mappings : list string) (anns : list Mention)
  (st : list Mention * list Mention) (a : PhenotypeAnn) :
  a ∈ phenotypes cr ->
  Forall (selectable cr label ignore_mappings) st.1 ->
  Forall (selectable cr label ignore_mappings)
         (phenotype_step label ignore_mappings anns st a).1.
Proof.
  intros Ha Hst. destruct st as [phs smaller]. unfold phenotype_step. simpl in *.
  destruct (String.eqb_spec (minor_type a) (replace "neg_" "" label)) as [Ht|]; [|done].
  unfold in_list. case_bool_decide as Hign; [done|].
  destruct (polarity_agrees label (ca_negation (ph_ctx a))) eqn:Hp; [|done].
  destruct (scan_overlaps a (anns ++ phs) smaller) as [overlaped smaller']; simpl.
  destruct overlaped; simpl; [done|].
  apply Forall_app. split; [done|]. constructor; [|constructor].
  split; [done|]. done.
Qed.

Lemma phenotype_loop_selectable (cr : CustomisedRecoginiser) (label : string)
  (ignore_mappings : list string) (anns : list Mention) (ps : list PhenotypeAnn)
  (st : list Mention * list Mention) :
  (forall a, a ∈ ps -> a ∈ phenotypes cr) ->
  Forall (selectable cr label ignore_mappings) st.1 ->
  Forall (selectable cr label ignore_mappings)
         (fold_left (phenotype_step label ignore_mappings anns) ps st).1.
Proof.
  revert st. induction ps as [|a rest IH]; intros st Hps Hst; simpl; [done|].
  apply IH.
  - intros b Hb. apply Hps. by right.
  - apply phenotype_step_selectable; [apply Hps; by left|done].
Qed.

Lemma remove_loop_selectable (P : Mention -> Prop) (smaller : list Mention)
  (st : list Mention * list Mention) :
  Forall P st.1 -> Forall P st.2 ->
  Forall P (fold_left remove_step smaller st).1
  /\ Forall P (fold_left remove_step smaller st).2.
Proof.
  revert st. induction smaller as [|o rest IH]; intros [anns phs] Ha Hp; simpl in *; [done|].
  apply IH; simpl.
  - destruct (in_list o anns); [|done].
    apply Forall_forall. intros y Hy. apply remove_first_subset in Hy.
    by eapply (proj1 (Forall_forall _ _) Ha).
  - destruct (in_list o phs); [|done].
    apply Forall_forall. intros y Hy. apply remove_first_subset in Hy.
    by eapply (proj1 (Forall_forall _ _) Hp).
Qed.

(** X11. Every annotation that [get_anns_by_label] returns is an
    annotation of the document with the polarity of the label: a concept
    mention whose concept is mapped to the type of the label and is not
    among [ignore_mappings], or a phenotype mention of that minor type
    whose lower-cased text is not among the lower-cased
    [ignore_mappings]. *)
Theorem get_anns_by_label_selects (cr : CustomisedRecoginiser) (label : string)
  (ignore_mappings : list string) :
  Forall (selectable cr label ignore_mappings)
         (get_anns_by_label cr label ignore_mappings).
Proof.
  unfold get_anns_by_label.
  set (anns := map UMLS (filter (concept_selected cr label ignore_mappings)
                                (annotations cr))).
  assert (Forall (selectable cr label ignore_mappings) anns) as Hanns.
  { apply Forall_forall. intros m Hm. apply list_elem_of_fmap in Hm as (a & -> & Ha).
    apply list_elem_of_filter in Ha as [Hsel Ha].
    apply concept_selected_selectable; [done|]. by apply Is_true_true. }
  pose proof (phenotype_loop_selectable cr label ignore_mappings anns (phenotypes cr)
                ([], []) (fun a Ha => Ha) (Forall_nil_2 _)) as Hph.
  destruct (fold_left (phenotype_step label ignore_mappings anns) (phenotypes cr) ([], []))
    as [phs smaller]. simpl in Hph.
  pose proof (remove_loop_selectable (selectable cr label ignore_mappings) smaller
                (anns, phs) Hanns Hph) as [Ha' Hp'].
  destruct (fold_left remove_step smaller (anns, phs)) as [anns' phs']. simpl in *.
  apply Forall_app. done.
Qed.

(** ** Dimensions of the label model *)

(** X12. On a model whose list of context dimensions and frequency dict
    name the same dimensions (a new model is one),
    [add_context_dimension] never raises: it keeps the two in step, makes
    the lower-cased value a dimension, raises its frequency by exactly one
    (from zero when it is new) and leaves every other frequency alone. *)
Theorem add_context_dimension_counts (value : string) (tp fp : option bool) (m : LabelModel) :
  context_indexed m ->
  exists m',
    add_context_dimension value tp fp m = Ok m'
    /\ context_indexed m'
    /\ lower value ∈ context_dimensions m'
    /\ label2freq m' !! lower value = Some (default 0 (label2freq m !! lower value) + 1)
    /\ (forall l, l <> lower value -> label2freq m' !! l = label2freq m !! l).
Proof.
  intros Hm. unfold add_context_dimension, in_list.
  case_bool_decide as Hin; simpl.
  - apply Hm in Hin as Hsome. destruct Hsome as [n Hn]. rewrite Hn. simpl.
    eexists. split; [reflexivity|]. unfold context_indexed. simpl.
    split; [|split; [done|split; [by rewrite lookup_insert_eq|]]].
    + intros v. rewrite (Hm v). destruct (decide (v = lower value)) as [->|Hne].
      * rewrite lookup_insert_eq, Hn. split; by eexists.
      * by rewrite lookup_insert_ne.
    + intros l Hl. by rewrite lookup_insert_ne.
  - eexists. split; [reflexivity|]. unfold context_indexed. simpl.
    assert (label2freq m !! lower value = None) as Hnone.
    { destruct (label2freq m !! lower value) eqn:E; [|done].
      destruct Hin. apply Hm. by eexists. }
    split; [|split; [|split; [by rewrite lookup_insert_eq, Hnone|]]].
    + intros v. rewrite elem_of_app, list_elem_of_singleton, (Hm v).
      destruct (decide (v = lower value)) as [->|Hne].
      * rewrite lookup_insert_eq. split; [by eexists|by right].
      * rewrite lookup_insert_ne by done. split; [by intros [?|?]|by left].
    + apply elem_of_app. right. by apply list_elem_of_singleton.
    + intros l Hl. by rewrite lookup_insert_ne.
Qed.

Lemma new_LabelModel_indexed (label_ : string) (max_dimensions : option Z) :
  context_indexed (new_LabelModel label_ max_dimensions).
Proof.
  intros v. simpl. rewrite lookup_empty. split; [by intros ?%elem_of_nil|by intros [? ?]].
Qed.

Lemma add_context_dimension_counts_example :
  exists m',
    add_context_dimension "Fever" (Some true) None stroke_model = Ok m'
    /\ context_indexed m'
    /\ lower "Fever" ∈ context_dimensions m'
    /\ label2freq m' !! lower "Fever"
       = Some (default 0 (label2freq stroke_model !! lower "Fever") + 1)
    /\ (forall l, l <> lower "Fever" -> label2freq m' !! l = label2freq stroke_model !! l).
Proof.
  apply (add_context_dimension_counts "Fever" (Some true) None stroke_model).
  apply new_LabelModel_indexed.
Defined.

Lemma add_label_dimension_member (value : string) (tp fp : option bool) (m : LabelModel) :
  lower value ∈ label_dimensions (add_label_dimension value tp fp m).
Proof.
  unfold add_label_dimension, in_list. case_bool_decide as Hin; simpl; [done|].
  apply elem_of_app. right. by apply list_elem_of_singleton.
Qed.

(** X13. A label dimension is registered once, whatever its case: adding
    a value whose lower-cased form was already added changes nothing, and
    in particular the [tp] and [fp] arguments of the later call are not
    recorded. *)
Theorem add_label_dimension_once (value value' : string) (tp fp tp' fp' : option bool)
  (m : LabelModel) :
  lower value' = lower value ->
  add_label_dimension value' tp' fp' (add_label_dimension value tp fp m)
  = add_label_dimension value tp fp m.
Proof.
  intros Hlow. unfold add_label_dimension at 1. rewrite Hlow. unfold in_list.
  rewrite bool_decide_eq_true_2 by apply add_label_dimension_member. done.
Qed.

Lemma add_label_dimension_once_example :
  add_label_dimension "STROKE" (Some true) None
    (add_label_dimension "Stroke" None None stroke_model)
  = add_label_dimension "Stroke" None None stroke_model.
Proof.
  apply (add_label_dimension_once "Stroke" "STROKE" None None (Some true) None stroke_model).
  reflexivity.
Defined.

(** ** Encoding *)

Lemma encode_context_fold (b : string -> Z) (dims : list string) (encoded : list Z) :
  fold_left (fun encoded l => (encoded ++ [b l]) ++ [0]) dims encoded
  = encoded ++ flat_map (fun l => [b l; 0]) dims.
Proof.
  revert encoded. induction dims as [|l rest IH]; intros encoded; simpl.
  - by rewrite app_nil_r.
  - rewrite IH, <- !app_assoc. done.
Qed.

Lemma pairs_length (b : string -> Z) (dims : list string) :
  length (flat_map (fun l => [b l; 0]) dims) = (2 * length dims)%nat.
Proof. induction dims as [|l rest IH]; simpl; [done|]. rewrite IH. lia. Qed.

Lemma pairs_lookup (b : string -> Z) (dims : list string) (i : nat) (l : string) :
  dims !! i = Some l ->
  flat_map (fun l => [b l; 0]) dims !! (2 * i)%nat = Some (b l)
  /\ flat_map (fun l => [b l; 0]) dims !! (2 * i + 1)%nat = Some 0.
Proof.
  revert i. induction dims as [|d rest IH]; intros i Hi; [done|].
  destruct i as [|i]; simpl in *.
  - by injection Hi as ->.
  - replace (i + S (i + 0))%nat with (S (2 * i)) by lia.
    replace (i + S (i + 0) + 1)%nat with (S (2 * i + 1)) by lia.
    simpl. by apply IH.
Qed.

Lemma encode_ann_unfold (ann : Mention) (context_anns : list Mention) (m m' : LabelModel)
  (encoded : list Z) :
  encode_ann ann context_anns m = Ok (encoded, m') ->
  exists dims label_part,
    get_top_tfidf_dimensions (max_dimensions m) m = Ok (dims, m')
    /\ length label_part = label_width m
    /\ encoded = label_part
         ++ flat_map (fun l => [if in_list l (map (fun c => get_ann_dim_label c true)
                                                  context_anns)
                                then 1 else 0; 0]) dims.
Proof.
  unfold encode_ann.
  destruct (get_top_tfidf_dimensions (max_dimensions m) m) as [[dims m1]|e]; simpl; [|done].
  intros [= <- <-]. eexists dims, _. split; [done|].
  split; [|apply (encode_context_fold (fun l => if in_list l _ then 1 else 0))].
  unfold label_width. destruct (use_one_dimension_for_label m).
  - by destruct (in_list _ _).
  - by rewrite length_map.
Qed.

Lemma get_top_tfidf_dimensions_sets_cache (k : option Z) (m m' : LabelModel)
  (dims : list string) :
  get_top_tfidf_dimensions k m = Ok (dims, m') ->
  tfidf_dims m' = Some dims
  /\ label_dimensions m' = label_dimensions m
  /\ use_one_dimension_for_label m' = use_one_dimension_for_label m
  /\ (forall d, tfidf_dims m = Some d -> d = dims /\ m' = m).
Proof.
  unfold get_top_tfidf_dimensions. destruct (tfidf_dims m) as [d|] eqn:E.
  - intros [= <- <-]. split; [done|]. split; [done|]. split; [done|].
    by intros d0 [= <-].
  - destruct (tfidf_scores m); simpl; [|done]. intros [= <- <-]. done.
Qed.

(** X14. A vector that [encode_ann] returns has a fixed layout: the
    slots of the label (one, or one per label dimension) followed by two
    slots per selected context dimension, in the order of the selection.
    The first of the two is [1] when a context annotation has that
    dimension as its label and [0] otherwise; the second, the frequency
    slot, is always [0]. *)
Theorem encode_ann_layout (ann : Mention) (context_anns : list Mention) (m m' : LabelModel)
  (encoded : list Z) :
  encode_ann ann context_anns m = Ok (encoded, m') ->
  exists dims,
    tfidf_dims m' = Some dims
    /\ length encoded = (label_width m + 2 * length dims)%nat
    /\ forall i l, dims !! i = Some l ->
         encoded !! (label_width m + 2 * i)%nat
         = Some (if in_list l (map (fun c => get_ann_dim_label c true) context_anns)
                 then 1 else 0)
         /\ encoded !! (label_width m + 2 * i + 1)%nat = Some 0.
Proof.
  intros Henc. destruct (encode_ann_unfold _ _ _ _ _ Henc) as (dims & lp & Hsel & Hlen & ->).
  exists dims. split; [by apply get_top_tfidf_dimensions_sets_cache in Hsel as [? _]|].
  split; [by rewrite length_app, pairs_length, Hlen|].
  intros i l Hi. rewrite <- Hlen, <- Nat.add_assoc.
  rewrite !lookup_app_r by lia.
  replace (length lp + 2 * i - length lp)%nat with (2 * i)%nat by lia.
  replace (length lp + (2 * i + 1) - length lp)%nat with (2 * i + 1)%nat by lia.
  by apply (pairs_lookup
              (fun l => if in_list l (map (fun c => get_ann_dim_label c true) context_anns)
                        then 1 else 0)).
Qed.

Lemma encode_ann_layout_example :
  exists encoded m' dims,
    encode_ann first_mention [second_mention] weighted_model = Ok (encoded, m')
    /\ tfidf_dims m' = Some dims
    /\ length encoded = (label_width weighted_model + 2 * length dims)%nat
    /\ forall i l, dims !! i = Some l ->
         encoded !! (label_width weighted_model + 2 * i)%nat
         = Some (if in_list l (map (fun c => get_ann_dim_label c true) [second_mention])
                 then 1 else 0)
         /\ encoded !! (label_width weighted_model + 2 * i + 1)%nat = Some 0.
Proof.
  eexists _, _.
  refine (let H := encode_ann_layout first_mention [second_mention] weighted_model _ _
                     eq_refl in _).
  destruct H as (dims & H). exists dims. split; [reflexivity|exact H].
Defined.

Lemma index_of_lookup (x : string) (xs : list string) :
  x ∈ xs -> 0 <= index_of x xs /\ xs !! Z.to_nat (index_of x xs) = Some x.
Proof.
  induction xs as [|y rest IH]; [by intros ?%elem_of_nil|].
  intros Hx. simpl. destruct (String.eqb_spec y x) as [->|Hne]; [done|].
  apply elem_of_cons in Hx as [->|Hx]; [done|].
  destruct (IH Hx) as [Hpos Hl]. split; [lia|].
  replace (Z.to_nat (1 + index_of x rest)) with (S (Z.to_nat (index_of x rest))) by lia.
  done.
Qed.

(** X15. With one slot for the label, the first element of a vector of
    [encode_ann] is the index of the label of the annotation in the list
    of label dimensions (looking the index up gives the label back), and
    [-1] when the label is not a dimension. *)
Theorem encode_ann_label_index (ann : Mention) (context_anns : list Mention)
  (m m' : LabelModel) (encoded : list Z) :
  use_one_dimension_for_label m = true ->
  encode_ann ann context_anns m = Ok (encoded, m') ->
  (get_ann_dim_label ann false ∈ label_dimensions m ->
   exists i, encoded !! 0%nat = Some i /\ 0 <= i
             /\ label_dimensions m !! Z.to_nat i = Some (get_ann_dim_label ann false))
  /\ (get_ann_dim_label ann false ∉ label_dimensions m -> encoded !! 0%nat = Some (-1)).
Proof.
  intros Hone. unfold encode_ann, in_list. rewrite Hone.
  destruct (get_top_tfidf_dimensions (max_dimensions m) m) as [[dims m1]|e]; simpl; [|done].
  intros [= <- <-]. rewrite encode_context_fold. split; intros Hin.
  - rewrite bool_decide_eq_true_2 by done. simpl.
    destruct (index_of_lookup _ _ Hin) as [Hpos Hl]. by eexists.
  - by rewrite bool_decide_eq_false_2.
Qed.

Lemma encode_ann_label_index_example :
  let m := add_label_dimension "Infarct" None None
             (add_label_dimension "stroke" None None stroke_model) in
  exists encoded m' i,
    encode_ann second_mention [] m = Ok (encoded, m')
    /\ encoded !! 0%nat = Some i /\ 0 <= i
    /\ label_dimensions m !! Z.to_nat i = Some (get_ann_dim_label second_mention false).
Proof.
  simpl. eexists _, _.
  refine (let H := encode_ann_label_index second_mention []
                     (add_label_dimension "Infarct" None None
                        (add_label_dimension "stroke" None None stroke_model)) _ _
                     eq_refl eq_refl in _).
  destruct H as [H _]. destruct H as (i & H); [apply (bool_decide_unpack _); by vm_compute|].
  exists i. split; [reflexivity|exact H].
Defined.

(** ** The rows of the training data *)

Lemma load_match_loop_mtp (label_ : string) (a : Mention) (gold : list EDIRAnn)
  (st : bool * Z * list ann_id) :
  0 <= st.1.2 -> 0 <= (fold_left (load_match_step label_ a) gold st).1.2.
Proof.
  revert st. induction gold as [|g rest IH]; intros [[matched k] nm] Hk; simpl in *; [done|].
  apply IH. destruct (in_list (id g) nm); [|done].
  destruct (overlap g a && String.eqb (label g) label_); [|done].
  destruct matched; simpl; lia.
Qed.

Lemma load_ann_step_rows (W : nat) (cr : CustomisedRecoginiser) (gold : list EDIRAnn)
  (st st' : LabelModel * list (list Z) * list (list Z) * Z * list ann_id) (a : Mention) :
  rows_aligned W st.1.1.1.1 st.1.1.1.2 st.1.1.2 st.1.2 ->
  load_ann_step cr gold st a = Ok st' ->
  rows_aligned W st'.1.1.1.1 st'.1.1.1.2 st'.1.1.2 st'.1.2.
Proof.
  destruct st as [[[[m X0] Y0] k] nm]. simpl.
  intros (HW & Hlen & HY & Hk & HX). unfold load_ann_step.
  destruct (get_prior_anns cr a) as [c|e]; simpl; [|done].
  pose proof (load_match_loop_mtp (lm_label m) a gold (false, k, nm) Hk) as Hk'.
  destruct (fold_left (load_match_step (lm_label m) a) gold (false, k, nm))
    as [[matched k'] nm']. simpl in Hk'.
  destruct (encode_ann a (context_of c) m) as [[enc m1]|e] eqn:Henc; simpl; [|done].
  intros [= <-]. simpl.
  destruct (encode_ann_unfold _ _ _ _ _ Henc) as (dims & lp & Hsel & Hlp & ->).
  destruct (get_top_tfidf_dimensions_sets_cache _ _ _ _ Hsel) as (Hcache & Hld & Hone & Hold).
  split; [|split; [|split; [|split; [done|]]]].
  - unfold label_width in *. by rewrite Hld, Hone.
  - rewrite !length_app. simpl. lia.
  - apply Forall_app. split; [done|]. constructor; [|done]. destruct matched; auto.
  - right. exists dims. split; [done|]. apply Forall_app. split.
    + destruct HX as [->|(d & Hd & Hrows)]; [done|].
      destruct (Hold d Hd) as [-> _]. done.
    + constructor; [|done]. rewrite length_app, pairs_length. lia.
Qed.

Lemma load_data_doc_rows (W : nat) (cm : Concept2Mapping) (ignore_mappings : list string)
  (st st' : LabelModel * Data) (d : Document) :
  rows_aligned W st.1 (X st.2) (Y st.2) (mtp st.2) /\ 0 <= fns st.2 ->
  load_data_doc cm ignore_mappings st d = Ok st' ->
  rows_aligned W st'.1 (X st'.2) (Y st'.2) (mtp st'.2) /\ 0 <= fns st'.2.
Proof.
  destruct st as [m data]. simpl. intros [Hrows Hfns]. unfold load_data_doc.
  destruct (doc_gold d) as [gd|]; [|by intros [= <-]].
  destruct (get_ess_entities gd) as [gold|e]; simpl; [|done].
  destruct (for_each _ _ _) as [[[[[m1 X1] Y1] k1] nm1]|e] eqn:E; simpl; [|done].
  intros [= <-]. simpl. split; [|lia].
  apply (for_each_invariant
           (fun st => rows_aligned W st.1.1.1.1 st.1.1.1.2 st.1.1.2 st.1.2)) in E;
    [done| |done].
  intros s x s'. apply load_ann_step_rows.
Qed.

(** X16. What [load_data] returns is well formed: [X] has as many rows
    as [Y] has labels, every label is [[0]] or [[1]], the counts of false
    negatives and of multiple true positives are not negative, and all
    rows of [X] have the same length, the width of the label part plus two
    slots for every dimension of the selection that the returned model
    caches. *)
Theorem load_data_rows_aligned (cm : Concept2Mapping) (ann_dir : list Document)
  (ignore_mappings : list string) (m m' : LabelModel) (data : Data) :
  load_data cm ann_dir ignore_mappings m = Ok (data, m') ->
  length (X data) = length (Y data)
  /\ Forall (fun y => y = [0] \/ y = [1]) (Y data)
  /\ 0 <= fns data /\ 0 <= mtp data
  /\ (X data = [] \/
      exists dims, tfidf_dims m' = Some dims
        /\ Forall (fun row => length row = (label_width m + 2 * length dims)%nat) (X data)).
Proof.
  unfold load_data.
  destruct (for_each _ _ _) as [[m1 data1]|e] eqn:E; simpl; [|done].
  intros [= <- <-].
  apply (for_each_invariant
           (fun st => rows_aligned (label_width m) st.1 (X st.2) (Y st.2) (mtp st.2)
                      /\ 0 <= fns st.2)) in E.
  - simpl in E. destruct E as [(_ & Hlen & HY & Hk & HX) Hfns]. done.
  - intros s x s'. apply load_data_doc_rows.
  - simpl. repeat split; try done. by left.
Qed.

Lemma load_data_rows_aligned_example :
  exists data m',
    load_data stroke_mapping [stroke_document] [] weighted_model = Ok (data, m')
    /\ length (X data) = length (Y data)
    /\ Forall (fun y => y = [0] \/ y = [1]) (Y data)
    /\ 0 <= fns data /\ 0 <= mtp data
    /\ (X data = [] \/
        exists dims, tfidf_dims m' = Some dims
          /\ Forall (fun row => length row
                                = (label_width weighted_model + 2 * length dims)%nat)
                    (X data)).
Proof.
  eexists _, _. split; [reflexivity|].
  apply (load_data_rows_aligned stroke_mapping [stroke_document] [] weighted_model).
  reflexivity.
Defined.

(** ** Predicting without a model file *)

Lemma is_positive_label (y : list Z) : y = [0] \/ y = [1] -> exists v, y = [v].
Proof. intros [->| ->]; by eexists. Qed.

(** X17. When the classifier file does not exist and [load_data]
    returns, [predict_label] returns too: it adds one true positive for
    every row that [load_data] labelled [[1]] and one false positive for
    every row it labelled [[0]]. The false negatives that [load_data]
    counted are dropped: the count of false negatives of the record does
    not change. *)
Theorem predict_label_without_model_file
  (isfile : string -> bool) (_min_sample_size : Z)
  (pca_transform : string -> list (list Z) -> result (list (list Q)))
  (model_predict : string -> list (list Q) -> result (list Q))
  (lm lm' : LabelModel) (cm : Concept2Mapping) (test_dir : list Document)
  (ml_model_file : string) (performance : LabelPerformance)
  (pca_model_file : option string) (max_dimension : option Z)
  (ignore_mappings : list string) (data : Data) :
  isfile ml_model_file = false ->
  load_data cm test_dir ignore_mappings (set_max_dimensions max_dimension lm)
  = Ok (data, lm') ->
  exists performance',
    predict_label isfile _min_sample_size pca_transform model_predict lm cm test_dir
                  ml_model_file performance pca_model_file max_dimension ignore_mappings
    = Ok performance'
    /\ true_positive performance'
       = true_positive performance + count (fun y => bool_decide (y = [1])) (Y data)
    /\ false_positive performance'
       = false_positive performance + count (fun y => bool_decide (y = [0])) (Y data)
    /\ false_negative performance' = false_negative performance.
Proof.
  intros Hfile Hload. unfold predict_label. rewrite Hload. simpl.
  assert (length (X data) = length (Y data)
          /\ Forall (fun y => y = [0] \/ y = [1]) (Y data)) as [Hlen HY].
  { unfold load_data in Hload.
    destruct (for_each _ _ _) as [[m1 data1]|e] eqn:E; simpl in Hload; [|done].
    injection Hload as <- <-.
    apply (for_each_invariant
             (fun st => rows_aligned (label_width (set_max_dimensions max_dimension lm))
                          st.1 (X st.2) (Y st.2) (mtp st.2) /\ 0 <= fns st.2)) in E.
    - simpl in E. destruct E as [(_ & Hlen & HY & _) _]. done.
    - intros s x s'. apply load_data_doc_rows.
    - simpl. repeat split; try done. by left. }
  assert (predictions isfile _min_sample_size pca_transform model_predict (X data)
            (fns data) (mtp data) ml_model_file performance pca_model_file
          = Ok (ones (length (X data)), performance)) as HP.
  { unfold predictions. rewrite Hfile. done. }
  rewrite (predict_use_model_scores_fallback _ _ _ _ _ _ _ _ _ _ _ _ HP (eq_sym Hlen)).
  2:{ eapply Forall_impl; [exact HY|]. apply is_positive_label. }
  eexists. split; [reflexivity|]. simpl.
  assert (count is_positive (Y data) = count (fun y => bool_decide (y = [1])) (Y data)
          /\ count (fun y => negb (is_positive y)) (Y data)
             = count (fun y => bool_decide (y = [0])) (Y data)) as [-> ->]; [|done].
  clear -HY. induction HY as [|y rest Hy _ [IH1 IH2]]; [done|].
  rewrite !count_cons, IH1, IH2. by destruct Hy as [-> | ->].
Qed.

Lemma predict_label_without_model_file_example :
  exists data lm' performance',
    load_data stroke_mapping [stroke_document] [] (set_max_dimensions (Some 20) stroke_model)
    = Ok (data, lm')
    /\ predict_label no_file 5 identity_pca all_negative stroke_model stroke_mapping
         [stroke_document] "stroke_DT.model" (new_LabelPerformance "stroke") None (Some 20) []
       = Ok performance'
    /\ true_positive performance'
       = true_positive (new_LabelPerformance "stroke")
         + count (fun y => bool_decide (y = [1])) (Y data)
    /\ false_positive performance'
       = false_positive (new_LabelPerformance "stroke")
         + count (fun y => bool_decide (y = [0])) (Y data)
    /\ false_negative performance' = false_negative (new_LabelPerformance "stroke").
Proof.
  eexists _, _.
  refine (let H := predict_label_without_model_file no_file 5 identity_pca all_negative
                     stroke_model _ stroke_mapping [stroke_document] "stroke_DT.model"
                     (new_LabelPerformance "stroke") None (Some 20) [] _ eq_refl eq_refl
          in _).
  destruct H as (p & H). exists p. split; [reflexivity|exact H].
Defined.

(** ** What validation adds up to *)

Lemma count_nonneg {A : Type} (f : A -> bool) (xs : list A) : 0 <= count f xs.
Proof. unfold count. lia. Qed.

Lemma count_ext {A : Type} (f g : A -> bool) (xs : list A) :
  (forall x, x ∈ xs -> f x = g x) -> count f xs = count g xs.
Proof.
  induction xs as [|x rest IH]; intros Hfg; [done|].
  rewrite !count_cons, IH, (Hfg x).
  - done.
  - by left.
  - intros y Hy. apply Hfg. by right.
Qed.

Lemma count_none {A : Type} (f : A -> bool) (xs : list A) :
  (forall x, x ∈ xs -> f x = false) -> count f xs = 0.
Proof.
  intros Hf. rewrite (count_ext f (fun _ => false)) by done. clear Hf.
  induction xs as [|x rest IH]; [done|]. by rewrite count_cons, IH.
Qed.

Lemma count_split {A : Type} (f g : A -> bool) (xs : list A) :
  count (fun x => f x && g x) xs + count (fun x => f x && negb (g x)) xs = count f xs.
Proof.
  induction xs as [|x rest IH]; [done|].
  rewrite !count_cons. destruct (f x), (g x); simpl; lia.
Qed.

(** X18. [validate] accounts for every annotation it is given. For
    every label, the true positives and the false negatives together grow
    by the number of gold annotations of that label: each is counted once,
    as the one or as the other. The false positives grow by at most the
    number of learnt annotations of the label; no counter decreases; and
    the counters of a label that no gold and no learnt annotation carries
    stay as they were. *)
Theorem validate_accounts_for_every_annotation (gold_anns learnt_anns : list EDIRAnn)
  (label2performance : gmap string LabelPerformance) (l : string) :
  tp_of (validate gold_anns learnt_anns label2performance) l
  + fn_of (validate gold_anns learnt_anns label2performance) l
  = tp_of label2performance l + fn_of label2performance l
    + count (fun ga => String.eqb (label ga) l) gold_anns
  /\ tp_of label2performance l <= tp_of (validate gold_anns learnt_anns label2performance) l
  /\ fn_of label2performance l <= fn_of (validate gold_anns learnt_anns label2performance) l
  /\ fp_of label2performance l <= fp_of (validate gold_anns learnt_anns label2performance) l
     <= fp_of label2performance l + count (fun la => String.eqb (label la) l) learnt_anns
  /\ ((forall a, a ∈ gold_anns ++ learnt_anns -> label a <> l) ->
      tp_of (validate gold_anns learnt_anns label2performance) l = tp_of label2performance l
      /\ fn_of (validate gold_anns learnt_anns label2performance) l
         = fn_of label2performance l
      /\ fp_of (validate gold_anns learnt_anns label2performance) l
         = fp_of label2performance l).
Proof.
  destruct (validate_counters gold_anns learnt_anns label2performance l)
    as (Htp & Hfn & Hfp).
  rewrite Htp, Hfn, Hfp.
  pose proof (count_split (fun ga => String.eqb (label ga) l) (has_match learnt_anns)
                gold_anns) as Hgold.
  pose proof (count_split (fun la => String.eqb (label la) l)
                (fun la => negb (in_list (id la) (credited_ids gold_anns learnt_anns)))
                learnt_anns) as Hlearnt.
  simpl in Hgold, Hlearnt.
  pose proof (count_nonneg (fun ga => String.eqb (label ga) l && has_match learnt_anns ga)
                gold_anns).
  pose proof (count_nonneg
                (fun ga => String.eqb (label ga) l && negb (has_match learnt_anns ga))
                gold_anns).
  pose proof (count_nonneg
                (fun la => String.eqb (label la) l
                           && negb (in_list (id la) (credited_ids gold_anns learnt_anns)))
                learnt_anns).
  pose proof (count_nonneg
                (fun la => String.eqb (label la) l
                           && negb (negb (in_list (id la)
                                            (credited_ids gold_anns learnt_anns))))
                learnt_anns).
  repeat split; try lia.
  - rewrite count_none; [lia|]. intros ga Hga.
    destruct (String.eqb_spec (label ga) l) as [E|_]; [|done].
    exfalso. apply (H3 ga); [|done]. apply elem_of_app. by left.
  - rewrite count_none; [lia|]. intros ga Hga.
    destruct (String.eqb_spec (label ga) l) as [E|_]; [|done].
    exfalso. apply (H3 ga); [|done]. apply elem_of_app. by left.
  - rewrite count_none; [lia|]. intros la Hla.
    destruct (String.eqb_spec (label la) l) as [E|_]; [|done].
    exfalso. apply (H3 la); [|done]. apply elem_of_app. by right.
Qed.

(** X19. With nothing learnt, [validate] counts every gold annotation
    as a false negative of its label and changes no other counter; with
    no gold annotation, it counts every learnt annotation as a false
    positive of its label and changes no other counter. *)
Theorem validate_one_side_empty (anns : list EDIRAnn)
  (label2performance : gmap string LabelPerformance) (l : string) :
  (tp_of (validate anns [] label2performance) l = tp_of label2performance l
   /\ fn_of (validate anns [] label2performance) l
      = fn_of label2performance l + count (fun ga => String.eqb (label ga) l) anns
   /\ fp_of (validate anns [] label2performance) l = fp_of label2performance l)
  /\ (tp_of (validate [] anns label2performance) l = tp_of label2performance l
      /\ fn_of (validate [] anns label2performance) l = fn_of label2performance l
      /\ fp_of (validate [] anns label2performance) l
         = fp_of label2performance l + count (fun la => String.eqb (label la) l) anns).
Proof.
  split.
  - destruct (validate_counters anns [] label2performance l) as (-> & -> & ->).
    rewrite !count_nil.
    rewrite (count_none (fun ga => String.eqb (label ga) l && has_match [] ga)).
    + rewrite (count_ext _ (fun ga => String.eqb (label ga) l)); [lia|].
      intros ga _. unfold has_match, first_match. simpl. by rewrite andb_true_r.
    + intros ga _. unfold has_match, first_match. simpl. by rewrite andb_false_r.
  - destruct (validate_counters [] anns label2performance l) as (-> & -> & ->).
    rewrite !count_nil.
    rewrite (count_ext _ (fun la => String.eqb (label la) l)); [lia|].
    intros la _. unfold credited_ids. simpl. by rewrite andb_true_r.
Qed.

(** ** The range of precision, recall and F1 *)

Lemma ratio_le_one (a b : Z) : 0 < a -> 0 <= b -> (1 * inject_Z a / inject_Z (a + b) <= 1)%Q.
Proof.
  intros Ha Hb. rewrite Qmult_1_l.
  apply Qle_shift_div_r; [apply inject_Z_pos; lia|].
  rewrite Qmult_1_l. rewrite <- Zle_Qle. lia.
Qed.

Lemma inverse_ge_one (q : Q) : (0 < q <= 1)%Q -> (1 <= 1 / q)%Q.
Proof.
  intros [Hpos Hle]. apply Qle_shift_div_l; [done|]. by rewrite Qmult_1_l.
Qed.

(** X20. For a record with at least one true positive and counters
    that are not negative, none of the three measures is a sentinel:
    precision and recall are in [(0, 1]], the inverse of each is at least
    one, and so [f1], which divides two by the sum of the two inverses, is
    in [(0, 1]] too. *)
Theorem precision_recall_f1_in_unit_interval (p : LabelPerformance) :
  0 < true_positive p -> 0 <= false_negative p -> 0 <= false_positive p ->
  (0 < precision p <= 1)%Q /\ (0 < recall p <= 1)%Q /\ (0 < f1 p <= 1)%Q.
Proof.
  intros Htp Hfn Hfp.
  assert ((0 < precision p <= 1)%Q) as Hp.
  { unfold precision. destruct (Z.eqb_spec (true_positive p + false_positive p) 0); [lia|].
    split; [apply ratio_pos; lia|by apply ratio_le_one]. }
  assert ((0 < recall p <= 1)%Q) as Hr.
  { unfold recall. destruct (Z.eqb_spec (true_positive p + false_negative p) 0); [lia|].
    split; [apply ratio_pos; lia|by apply ratio_le_one]. }
  split; [done|]. split; [done|].
  unfold f1. destruct (_ || _)%bool eqn:E.
  - rewrite !orb_true_iff, !Qeq_bool_iff in E. exfalso.
    destruct Hp as [Hp _], Hr as [Hr _].
    destruct E as [[[E|E]|E]|E]; rewrite E in *; by discriminate.
  - clear E. split; [apply f1_defined_pos; tauto|].
    pose proof (inverse_ge_one _ Hp) as Hip. pose proof (inverse_ge_one _ Hr) as Hir.
    assert ((2 <= 1 / precision p + 1 / recall p)%Q) as Hsum.
    { change 2%Q with (1 + 1)%Q. by apply Qplus_le_compat. }
    apply Qle_shift_div_r.
    + eapply Qlt_le_trans; [|exact Hsum]. reflexivity.
    + by rewrite Qmult_1_l.
Qed.

(** Three true positives, two false negatives and no false positive. *)
Lemma precision_recall_f1_in_unit_interval_example :
  let p := mkLabelPerformance "stroke" 3 2 0 in
  (0 < true_positive p /\ 0 <= false_negative p /\ 0 <= false_positive p)
  /\ (0 < precision p <= 1)%Q /\ (0 < recall p <= 1)%Q /\ (0 < f1 p <= 1)%Q.
Proof.
  simpl. split; [lia|].
  apply (precision_recall_f1_in_unit_interval (mkLabelPerformance "stroke" 3 2 0));
    simpl; lia.
Defined.

(** ** Sorting and slicing *)

Section sorting.

Context {A : Type} (key : A -> Q).

Lemma insert_sorted_perm (x : A) (xs : list A) : insert_sorted key x xs ≡ₚ x :: xs.
Proof.
  induction xs as [|y rest IH]; simpl; [done|].
  destruct (Qle_bool (key x) (key y)); [done|].
  rewrite IH. apply Permutation_swap.
Qed.

Lemma sorted_perm (xs : list A) : sorted key xs ≡ₚ xs.
Proof.
  unfold sorted. induction xs as [|x rest IH]; simpl; [done|].
  by rewrite insert_sorted_perm, IH.
Qed.

Lemma insert_sorted_ascending (x : A) (xs : list A) :
  StronglySorted (fun a b => (key a <= key b)%Q) xs ->
  StronglySorted (fun a b => (key a <= key b)%Q) (insert_sorted key x xs).
Proof.
  induction 1 as [|y rest Hrest IH Hy]; simpl.
  - repeat constructor.
  - destruct (Qle_bool (key x) (key y)) eqn:E.
    + apply Qle_bool_iff in E. constructor; [by constructor|].
      constructor; [done|].
      eapply Forall_impl; [exact Hy|]. intros z Hz. simpl in Hz. by apply (Qle_trans _ (key y)).
    + constructor; [done|].
      rewrite insert_sorted_perm. constructor; [|done].
      destruct (Qlt_le_dec (key y) (key x)) as [Hlt|Hle].
      * by apply Qlt_le_weak.
      * apply Qle_bool_iff in Hle. congruence.
Qed.

Lemma sorted_ascending (xs : list A) :
  StronglySorted (fun a b => (key a <= key b)%Q) (sorted key xs).
Proof.
  unfold sorted. induction xs as [|x rest IH]; simpl; [constructor|].
  by apply insert_sorted_ascending.
Qed.

End sorting.

Lemma slice_to_take {A : Type} (k : option Z) (xs : list A) :
  exists n, slice_to k xs = take n xs
    /\ match k with
       | None => length (slice_to k xs) = length xs
       | Some k =>
           Z.of_nat (length (slice_to (Some k) xs))
           = if k <? 0 then Z.max 0 (Z.of_nat (length xs) + k)
             else Z.min k (Z.of_nat (length xs))
       end.
Proof.
  destruct k as [k|]; simpl.
  - destruct (Z.ltb_spec k 0); eexists; (split; [done|]); rewrite length_take; lia.
  - exists (length xs). by rewrite firstn_all.
Qed.

Lemma StronglySorted_lookup {A : Type} (R : A -> A -> Prop) (xs : list A) (i j : nat)
  (a b : A) :
  StronglySorted R xs -> (i < j)%nat -> xs !! i = Some a -> xs !! j = Some b -> R a b.
Proof.
  intros Hs. revert i j. induction Hs as [|x rest _ IH Hx]; intros i j Hij Hi Hj; [done|].
  destruct j as [|j]; [lia|]. destruct i as [|i]; simpl in *.
  - injection Hi as <-. rewrite Forall_forall in Hx. apply Hx.
    by eapply list_elem_of_lookup_2.
  - apply (IH i j); [lia|done..].
Qed.

Lemma NoDup_fst_functional {V : Type} (xs : list (string * V)) (d : string) (v v' : V) :
  NoDup (map fst xs) -> (d, v) ∈ xs -> (d, v') ∈ xs -> v = v'.
Proof.
  induction xs as [|[d0 v0] rest IH]; intros Hnd Hv Hv'; [by apply elem_of_nil in Hv|].
  simpl in Hnd. apply NoDup_cons in Hnd as [Hd0 Hnd].
  apply elem_of_cons in Hv as [Hv|Hv], Hv' as [Hv'|Hv'].
  - congruence.
  - injection Hv as -> ->. exfalso. apply Hd0. apply list_elem_of_fmap. by exists (d0, v').
  - injection Hv' as -> ->. exfalso. apply Hd0. apply list_elem_of_fmap. by exists (d0, v).
  - by apply IH.
Qed.

(** What a slice of the sorted list of scored dimensions selects: [xs]
    is a list of pairs of a dimension and a number, no dimension twice. *)
Lemma top_slice {V : Type} (key : string * V -> Q) (k : option Z) (xs : list (string * V)) :
  NoDup (map fst xs) ->
  let dims := map fst (slice_to k (sorted key xs)) in
  NoDup dims
  /\ (forall d, d ∈ dims -> exists v, (d, v) ∈ xs)
  /\ (forall d d' v v', d ∈ dims -> d' ∉ dims -> (d, v) ∈ xs -> (d', v') ∈ xs ->
      (key (d, v) <= key (d', v'))%Q)
  /\ (forall i j d d' v v', (i < j)%nat -> dims !! i = Some d -> dims !! j = Some d' ->
      (d, v) ∈ xs -> (d', v') ∈ xs -> (key (d, v) <= key (d', v'))%Q)
  /\ match k with
     | None => length dims = length xs
     | Some k =>
         Z.of_nat (length dims)
         = if k <? 0 then Z.max 0 (Z.of_nat (length xs) + k)
           else Z.min k (Z.of_nat (length xs))
     end.
Proof.
  intros Hnd. simpl.
  pose proof (sorted_perm key xs) as Hperm.
  pose proof (sorted_ascending key xs) as Hasc.
  destruct (slice_to_take k (sorted key xs)) as (n & Htake & Hlen).
  rewrite Htake in *.
  assert (NoDup (map fst (sorted key xs))) as Hnd' by by rewrite Hperm.
  rewrite <- (take_drop n (sorted key xs)) in Hperm, Hasc, Hnd'.
  set (pre := take n (sorted key xs)) in *.
  set (rest := drop n (sorted key xs)) in *.
  rewrite map_app in Hnd'. apply NoDup_app in Hnd' as (Hpre & Hdisj & _).
  assert (forall d v, d ∈ map fst pre -> (d, v) ∈ xs -> (d, v) ∈ pre) as Hin_pre.
  { intros d v Hd Hv. rewrite <- Hperm in Hv. apply elem_of_app in Hv as [Hv|Hv]; [done|].
    exfalso. apply (Hdisj d Hd). apply list_elem_of_fmap. by exists (d, v). }
  assert (forall d v, d ∉ map fst pre -> (d, v) ∈ xs -> (d, v) ∈ rest) as Hin_rest.
  { intros d v Hd Hv. rewrite <- Hperm in Hv. apply elem_of_app in Hv as [Hv|Hv]; [|done].
    exfalso. apply Hd. apply list_elem_of_fmap. by exists (d, v). }
  split; [done|]. split; [|split; [|split]].
  - intros d Hd. apply list_elem_of_fmap in Hd as ([d0 v] & -> & Hd).
    exists v. rewrite <- Hperm. apply elem_of_app. by left.
  - intros d d' v v' Hd Hd' Hv Hv'.
    exact (StronglySorted_app_1_elem_of (fun a b => (key a <= key b)%Q) pre rest
             (d, v) (d', v') Hasc (Hin_pre d v Hd Hv) (Hin_rest d' v' Hd' Hv')).
  - intros i j d d' v v' Hij Hi Hj Hv Hv'.
    rewrite list_lookup_fmap in Hi, Hj.
    destruct (pre !! i) as [[d0 v0]|] eqn:Ei; [|done].
    destruct (pre !! j) as [[d1 v1]|] eqn:Ej; [|done].
    simpl in Hi, Hj. injection Hi as ->. injection Hj as ->.
    assert (v0 = v /\ v1 = v') as [-> ->].
    { assert ((d, v0) ∈ xs) as H0.
      { rewrite <- Hperm. apply elem_of_app. left. by eapply list_elem_of_lookup_2. }
      assert ((d', v1) ∈ xs) as H1.
      { rewrite <- Hperm. apply elem_of_app. left. by eapply list_elem_of_lookup_2. }
      split; [exact (NoDup_fst_functional xs d v0 v Hnd H0 Hv)
             |exact (NoDup_fst_functional xs d' v1 v' Hnd H1 Hv')]. }
    apply StronglySorted_app_1_l in Hasc.
    exact (StronglySorted_lookup (fun a b => (key a <= key b)%Q) pre i j
             (d, v) (d', v') Hasc Hij Ei Ej).
  - rewrite length_map. pose proof (Permutation_length (sorted_perm key xs)) as Hsize.
    destruct k; simpl in *; rewrite <- ?Htake, <- Hsize; done.
Qed.

(** ** The most frequent dimensions *)

Lemma Qopp_le_inv (p q : Q) : (- p <= - q)%Q -> (q <= p)%Q.
Proof. intros H. apply Qopp_le_compat in H. by rewrite !Qopp_involutive in H. Qed.

(** X21. Without a cached selection, [get_top_freq_dimensions] selects
    the most frequent context dimensions and caches them: no dimension is
    selected twice, every selected one is a key of the frequency dict,
    none is less frequent than a dimension left out, and the selection is
    listed with frequencies that do not increase. For [k >= 0] it has
    [min k n] dimensions of the [n] in the dict, for [None] all of them,
    and for a negative [k] all but the [-k] least frequent. *)
Theorem get_top_freq_dimensions_top (k : option Z) (m m' : LabelModel) (dims : list string) :
  selected_dims m = None ->
  get_top_freq_dimensions k m = (dims, m') ->
  selected_dims m' = Some dims
  /\ NoDup dims
  /\ (forall d, d ∈ dims -> is_Some (label2freq m !! d))
  /\ (forall d d' f f', d ∈ dims -> d' ∉ dims ->
      label2freq m !! d = Some f -> label2freq m !! d' = Some f' -> f' <= f)
  /\ (forall i j d d' f f', (i < j)%nat -> dims !! i = Some d -> dims !! j = Some d' ->
      label2freq m !! d = Some f -> label2freq m !! d' = Some f' -> f' <= f)
  /\ match k with
     | None => length dims = size (label2freq m)
     | Some k =>
         Z.of_nat (length dims)
         = if k <? 0 then Z.max 0 (Z.of_nat (size (label2freq m)) + k)
           else Z.min k (Z.of_nat (size (label2freq m)))
     end.
Proof.
  intros Hcache. unfold get_top_freq_dimensions. rewrite Hcache. intros [= <- <-].
  destruct (top_slice (fun x : string * Z => (- inject_Z x.2)%Q) k
              (map_to_list (label2freq m)) (NoDup_fst_map_to_list _))
    as (Hnd & Hkeys & Htop & Hord & Hlen).
  split; [done|]. split; [done|]. split; [|split; [|split]].
  - intros d Hd. destruct (Hkeys d Hd) as [f Hf].
    apply elem_of_map_to_list in Hf. by exists f.
  - intros d d' f f' Hd Hd' Hf Hf'. apply elem_of_map_to_list in Hf, Hf'.
    specialize (Htop d d' f f' Hd Hd' Hf Hf'). simpl in Htop.
    apply Qopp_le_inv in Htop. by rewrite Zle_Qle.
  - intros i j d d' f f' Hij Hi Hj Hf Hf'. apply elem_of_map_to_list in Hf, Hf'.
    specialize (Hord i j d d' f f' Hij Hi Hj Hf Hf'). simpl in Hord.
    apply Qopp_le_inv in Hord. by rewrite Zle_Qle.
  - by rewrite length_map_to_list in Hlen.
Qed.

(** The more frequent of the two dimensions of [weighted_model]. *)
Lemma get_top_freq_dimensions_top_example :
  selected_dims weighted_model = None
  /\ (get_top_freq_dimensions (Some 1) weighted_model).1 = ["neg_fall"]
  /\ (forall d d' f f', d ∈ ["neg_fall"] -> d' ∉ ["neg_fall"] ->
      label2freq weighted_model !! d = Some f ->
      label2freq weighted_model !! d' = Some f' -> f' <= f).
Proof.
  split; [reflexivity|]. split; [reflexivity|].
  destruct (get_top_freq_dimensions_top (Some 1) weighted_model
              (get_top_freq_dimensions (Some 1) weighted_model).2 ["neg_fall"]
              eq_refl eq_refl) as (_ & _ & _ & Htop & _).
  exact Htop.
Defined.

(** ** The best scored dimensions *)

(** X22. Without a cached selection, [get_top_tfidf_dimensions]
    returns exactly when every context dimension of the frequency dict is
    in the TP set or in the FP set; otherwise it raises
    [ZeroDivisionError] and nothing else. *)
Theorem get_top_tfidf_dimensions_returns_iff (k : option Z) (m : LabelModel) :
  tfidf_dims m = None ->
  ((exists dims m', get_top_tfidf_dimensions k m = Ok (dims, m')) <-> dimensions_marked m)
  /\ (forall e, get_top_tfidf_dimensions k m = Raise e -> e = ZeroDivisionError).
Proof.
  intros Hcache. split; [split|].
  - intros (dims & m' & Hsel) l [freq Hl].
    destruct (decide (l ∈ tp_labels m)) as [|Htp]; [by left|].
    destruct (decide (l ∈ fp_labels m)) as [|Hfp]; [by right|].
    rewrite (get_top_tfidf_dimensions_raises k m l freq Hcache Hl Htp Hfp) in Hsel. done.
  - apply get_top_tfidf_dimensions_total.
  - intros e. unfold get_top_tfidf_dimensions. rewrite Hcache.
    destruct (tfidf_scores m) as [df|e'] eqn:E; simpl; [done|].
    intros [= <-]. by apply tfidf_scores_loop_raises in E.
Qed.

Lemma get_top_tfidf_dimensions_returns_iff_example :
  tfidf_dims weighted_model = None
  /\ ((exists dims m', get_top_tfidf_dimensions (Some 1) weighted_model = Ok (dims, m'))
      <-> dimensions_marked weighted_model).
Proof.
  split; [reflexivity|].
  apply (get_top_tfidf_dimensions_returns_iff (Some 1) weighted_model eq_refl).
Defined.

Lemma tfidf_scores_keys (m : LabelModel) (df : list (string * Q)) :
  tfidf_scores m = Ok df ->
  map fst df = map fst (map_to_list (label2freq m))
  /\ (forall l s, (l, s) ∈ df ->
      exists freq, label2freq m !! l = Some freq /\ tfidf_score m l freq = Ok s).
Proof.
  unfold tfidf_scores. intros Hdf.
  apply tfidf_scores_loop in Hdf as (df' & -> & Hall). rewrite app_nil_l. split.
  - induction Hall as [|x y xs ys [Hxy _] _ IH]; simpl; [done|]. by rewrite IH, Hxy.
  - intros l s Hl. apply list_elem_of_lookup in Hl as [i Hi].
    destruct (Forall2_lookup_r _ _ _ _ _ Hall Hi) as ([l' freq] & Hx & Hl' & Hscore).
    simpl in *. subst l'. exists freq. split; [|done].
    apply elem_of_map_to_list. by eapply list_elem_of_lookup_2.
Qed.

(** X23. Without a cached selection, a selection that
    [get_top_tfidf_dimensions] returns is cached and holds the best scored
    context dimensions: no dimension twice, only keys of the frequency
    dict, none with a score below that of a dimension left out, listed
    with scores that do not increase; for [k >= 0] it has [min k n]
    dimensions of the [n] in the dict. *)
Theorem get_top_tfidf_dimensions_top (k : option Z) (m m' : LabelModel)
  (dims : list string) :
  tfidf_dims m = None ->
  get_top_tfidf_dimensions k m = Ok (dims, m') ->
  tfidf_dims m' = Some dims
  /\ NoDup dims
  /\ (forall d, d ∈ dims -> is_Some (label2freq m !! d))
  /\ (forall d d' f f' s s', d ∈ dims -> d' ∉ dims ->
      label2freq m !! d = Some f -> label2freq m !! d' = Some f' ->
      tfidf_score m d f = Ok s -> tfidf_score m d' f' = Ok s' -> (s' <= s)%Q)
  /\ (forall i j d d' f f' s s', (i < j)%nat -> dims !! i = Some d -> dims !! j = Some d' ->
      label2freq m !! d = Some f -> label2freq m !! d' = Some f' ->
      tfidf_score m d f = Ok s -> tfidf_score m d' f' = Ok s' -> (s' <= s)%Q)
  /\ match k with
     | None => length dims = size (label2freq m)
     | Some k =>
         Z.of_nat (length dims)
         = if k <? 0 then Z.max 0 (Z.of_nat (size (label2freq m)) + k)
           else Z.min k (Z.of_nat (size (label2freq m)))
     end.
Proof.
  intros Hcache. unfold get_top_tfidf_dimensions. rewrite Hcache.
  destruct (tfidf_scores m) as [df|e] eqn:E; simpl; [|done]. intros [= <- <-].
  destruct (tfidf_scores_keys m df E) as [Hfst Hdf].
  assert (NoDup (map fst df)) as Hnd0.
  { rewrite Hfst. apply NoDup_fst_map_to_list. }
  assert (forall d f s, label2freq m !! d = Some f -> tfidf_score m d f = Ok s ->
                        (d, s) ∈ df) as Hmem.
  { intros d f s Hf Hs. destruct (tfidf_scores_member m df d f E Hf) as (s0 & Hs0 & Hin).
    congruence. }
  destruct (top_slice (fun x : string * Q => (- x.2)%Q) k df Hnd0)
    as (Hnd & Hkeys & Htop & Hord & Hlen).
  split; [done|]. split; [done|]. split; [|split; [|split]].
  - intros d Hd. destruct (Hkeys d Hd) as [s Hs].
    destruct (Hdf d s Hs) as (f & Hf & _). by exists f.
  - intros d d' f f' s s' Hd Hd' Hf Hf' Hs Hs'.
    specialize (Htop d d' s s' Hd Hd' (Hmem _ _ _ Hf Hs) (Hmem _ _ _ Hf' Hs')).
    by apply Qopp_le_inv in Htop.
  - intros i j d d' f f' s s' Hij Hi Hj Hf Hf' Hs Hs'.
    specialize (Hord i j d d' s s' Hij Hi Hj (Hmem _ _ _ Hf Hs) (Hmem _ _ _ Hf' Hs')).
    by apply Qopp_le_inv in Hord.
  - assert (length df = size (label2freq m)) as Hsize.
    { rewrite <- length_map_to_list, <- (length_map fst df), Hfst. by rewrite length_map. }
    by rewrite Hsize in Hlen.
Qed.

(** Of the two dimensions of [weighted_model], [fever] is scored six
    and [neg_fall], in both sets, zero: [fever] is selected, although
    [neg_fall] is the more frequent. *)
Lemma get_top_tfidf_dimensions_top_example :
  tfidf_dims weighted_model = None
  /\ exists m', get_top_tfidf_dimensions (Some 1) weighted_model = Ok (["fever"], m')
     /\ tfidf_dims m' = Some ["fever"].
Proof.
  split; [reflexivity|]. eexists. split; [reflexivity|].
  refine (proj1 (get_top_tfidf_dimensions_top (Some 1) weighted_model _ ["fever"]
                   eq_refl eq_refl)).
Defined.

(** ** A cached selection and the number of dimensions *)

Lemma for_each_agree {A S T : Type} (R : S -> T -> Prop) (body1 : S -> A -> result S)
  (body2 : T -> A -> result T) (xs : list A) (s : S) (t : T) :
  (forall s t x, R s t -> agree R (body1 s x) (body2 t x)) ->
  R s t -> agree R (for_each body1 xs s) (for_each body2 xs t).
Proof.
  intros Hbody. revert s t. induction xs as [|x rest IH]; intros s t Hst; simpl; [done|].
  specialize (Hbody s t x Hst). unfold agree in Hbody.
  destruct (body1 s x) as [s1|e1], (body2 t x) as [t1|e2]; simpl; try done.
  by apply IH.
Qed.

(** With a cached selection [encode_ann] leaves the model as it is and
    does not read [max_dimensions]. *)
Lemma encode_ann_cached (a : Mention) (context_anns : list Mention) (m : LabelModel)
  (dims : list string) (k : option Z) :
  tfidf_dims m = Some dims ->
  exists encoded,
    encode_ann a context_anns m = Ok (encoded, m)
    /\ encode_ann a context_anns (set_max_dimensions k m)
       = Ok (encoded, set_max_dimensions k m).
Proof.
  intros Hcache. unfold encode_ann, get_top_tfidf_dimensions. simpl. rewrite Hcache. simpl.
  eexists. split; reflexivity.
Qed.

Lemma load_ann_step_cached (cr : CustomisedRecoginiser) (gold : list EDIRAnn)
  (dims : list string) (k : option Z) (a : Mention)
  (st : LabelModel * list (list Z) * list (list Z) * Z * list ann_id) :
  tfidf_dims st.1.1.1.1 = Some dims ->
  agree (fun s t => tfidf_dims s.1.1.1.1 = Some dims
                    /\ t = (set_max_dimensions k s.1.1.1.1, s.1.1.1.2, s.1.1.2, s.1.2, s.2))
        (load_ann_step cr gold st a)
        (load_ann_step cr gold
           (set_max_dimensions k st.1.1.1.1, st.1.1.1.2, st.1.1.2, st.1.2, st.2) a).
Proof.
  destruct st as [[[[m X0] Y0] mtp0] nm]. simpl. intros Hcache.
  unfold load_ann_step.
  destruct (get_prior_anns cr a) as [t2anns|e]; simpl; [|done].
  destruct (fold_left _ gold _) as [[matched mtp1] nm1].
  destruct (encode_ann_cached a (context_of t2anns) m dims k Hcache) as (enc & -> & ->).
  simpl. done.
Qed.

Lemma load_data_doc_cached (cm : Concept2Mapping) (ignore_mappings : list string)
  (dims : list string) (k : option Z) (d : Document) (m : LabelModel) (data : Data) :
  tfidf_dims m = Some dims ->
  agree (fun s t => tfidf_dims s.1 = Some dims /\ t = (set_max_dimensions k s.1, s.2))
        (load_data_doc cm ignore_mappings (m, data) d)
        (load_data_doc cm ignore_mappings (set_max_dimensions k m, data) d).
Proof.
  intros Hcache. unfold load_data_doc.
  destruct (doc_gold d) as [gd|]; simpl; [|done].
  destruct (get_ess_entities gd) as [gold|e]; simpl; [|done].
  assert (agree (fun s t => tfidf_dims s.1.1.1.1 = Some dims
                            /\ t = (set_max_dimensions k s.1.1.1.1, s.1.1.1.2, s.1.1.2,
                                    s.1.2, s.2))
            (for_each (load_ann_step (new_CustomisedRecoginiser (doc_json d) cm) gold)
               (get_anns_by_label (new_CustomisedRecoginiser (doc_json d) cm) (lm_label m)
                  ignore_mappings)
               (m, X data, Y data, mtp data, gold_ids (lm_label m) gold))
            (for_each (load_ann_step (new_CustomisedRecoginiser (doc_json d) cm) gold)
               (get_anns_by_label (new_CustomisedRecoginiser (doc_json d) cm) (lm_label m)
                  ignore_mappings)
               (set_max_dimensions k m, X data, Y data, mtp data,
                gold_ids (lm_label m) gold))) as Hloop.
  { apply for_each_agree; [|done]. intros s t x [Hs ->]. by apply load_ann_step_cached. }
  destruct (for_each _ _ (m, _, _, _, _)) as [[[[[m1 X1] Y1] mtp1] nm1]|e1];
    destruct (for_each _ _ (set_max_dimensions k m, _, _, _, _))
      as [[[[[m2 X2] Y2] mtp2] nm2]|e2]; simpl in *; try done.
  destruct Hloop as [Hc [= -> -> -> -> ->]]. done.
Qed.

Lemma load_data_cached (cm : Concept2Mapping) (ann_dir : list Document)
  (ignore_mappings : list string) (dims : list string) (k : option Z) (m : LabelModel) :
  tfidf_dims m = Some dims ->
  agree (fun r1 r2 => r1.2 = m /\ r2 = (r1.1, set_max_dimensions k m))
        (load_data cm ann_dir ignore_mappings m)
        (load_data cm ann_dir ignore_mappings (set_max_dimensions k m)).
Proof.
  intros Hcache. unfold load_data.
  assert (forall d m0 data0 r, tfidf_dims m0 = Some dims ->
            load_data_doc cm ignore_mappings (m0, data0) d = Ok r -> r.1 = m0) as Hsame.
  { intros d m0 data0 r Hc. unfold load_data_doc.
    destruct (doc_gold d) as [gd|]; simpl; [|by intros [= <-]].
    destruct (get_ess_entities gd) as [gold|e]; simpl; [|done].
    destruct (for_each _ _ _) as [[[[[m1 X1] Y1] mtp1] nm1]|e1] eqn:E; simpl; [|done].
    intros [= <-]. simpl.
    apply (for_each_invariant (fun st => st.1.1.1.1 = m0)) in E; [done| |done].
    intros [[[[ma Xa] Ya] mtpa] nma] x s'. simpl. intros ->.
    unfold load_ann_step.
    destruct (get_prior_anns _ x) as [t2anns|e]; simpl; [|done].
    destruct (fold_left _ gold _) as [[matched mtp2] nm2].
    destruct (encode_ann_cached x (context_of t2anns) m0 dims k Hc) as (enc & -> & _).
    simpl. by intros [= <-]. }
  assert (agree (fun s t => (tfidf_dims s.1 = Some dims /\ s.1 = m)
                            /\ t = (set_max_dimensions k s.1, s.2))
            (for_each (load_data_doc cm ignore_mappings) ann_dir (m, mkData [] [] 0 0))
            (for_each (load_data_doc cm ignore_mappings) ann_dir
               (set_max_dimensions k m, mkData [] [] 0 0))) as Hagree.
  { apply for_each_agree; [|done].
    intros [m0 data0] t d [[Hc Hm] ->]. cbn [fst snd] in *.
    pose proof (load_data_doc_cached cm ignore_mappings dims k d m0 data0 Hc) as Hdoc.
    destruct (load_data_doc cm ignore_mappings (m0, data0) d) as [r1|e1] eqn:E1;
      destruct (load_data_doc cm ignore_mappings (set_max_dimensions k m0, data0) d)
        as [r2|e2]; unfold agree in *; try done.
    destruct Hdoc as [Hc1 ->]. pose proof (Hsame d m0 data0 r1 Hc E1) as Hs.
    split; [split; [done|congruence]|done]. }
  destruct (for_each _ _ (m, _)) as [[m1 data1]|e1];
    destruct (for_each _ _ (set_max_dimensions k m, _)) as [[m2 data2]|e2];
    simpl in *; try done.
  destruct Hagree as [[_ ->] [= -> ->]]. done.
Qed.

(** X24. For a model that holds a cached selection of dimensions, as
    a model saved after training on at least one annotation does, the
    argument [max_dimension] of [predict_label] has no effect: [load_data]
    returns the same data whatever the model's [max_dimensions] is and
    leaves the model as it was, so the prediction is the same for any two
    values of the argument. *)
Theorem predict_label_ignores_max_dimension
  (isfile : string -> bool) (_min_sample_size : Z)
  (pca_transform : string -> list (list Z) -> result (list (list Q)))
  (model_predict : string -> list (list Q) -> result (list Q))
  (lm : LabelModel) (cm : Concept2Mapping) (test_dir : list Document)
  (ml_model_file : string) (performance : LabelPerformance)
  (pca_model_file : option string) (ignore_mappings : list string)
  (dims : list string) (k k' : option Z) :
  tfidf_dims lm = Some dims ->
  agree (fun r1 r2 => r1.2 = lm /\ r2 = (r1.1, set_max_dimensions k lm))
        (load_data cm test_dir ignore_mappings lm)
        (load_data cm test_dir ignore_mappings (set_max_dimensions k lm))
  /\ predict_label isfile _min_sample_size pca_transform model_predict lm cm test_dir
       ml_model_file performance pca_model_file k ignore_mappings
     = predict_label isfile _min_sample_size pca_transform model_predict lm cm test_dir
         ml_model_file performance pca_model_file k' ignore_mappings.
Proof.
  intros Hcache. split; [by eapply load_data_cached|].
  unfold predict_label.
  pose proof (load_data_cached cm test_dir ignore_mappings dims k lm Hcache) as Hk.
  pose proof (load_data_cached cm test_dir ignore_mappings dims k' lm Hcache) as Hk'.
  destruct (load_data cm test_dir ignore_mappings lm) as [[data m0]|e];
    destruct (load_data cm test_dir ignore_mappings (set_max_dimensions k lm))
      as [[data1 m1]|e1];
    destruct (load_data cm test_dir ignore_mappings (set_max_dimensions k' lm))
      as [[data2 m2]|e2]; simpl in *; try done.
  - destruct Hk as [_ [= -> _]]. destruct Hk' as [_ [= -> _]]. done.
  - congruence.
Qed.

(** The stroke document and the trained model, with at most one
    dimension and with no bound. *)
Lemma predict_label_ignores_max_dimension_example :
  tfidf_dims trained_model = Some ["fever"]
  /\ predict_label no_file 5 identity_pca all_negative trained_model stroke_mapping
       [stroke_document] "stroke_DT.model" (new_LabelPerformance "stroke") None (Some 0) []
     = predict_label no_file 5 identity_pca all_negative trained_model stroke_mapping
         [stroke_document] "stroke_DT.model" (new_LabelPerformance "stroke") None None [].
Proof.
  split; [reflexivity|].
  apply (predict_label_ignores_max_dimension no_file 5 identity_pca all_negative
           trained_model stroke_mapping [stroke_document] "stroke_DT.model"
           (new_LabelPerformance "stroke") None [] ["fever"] (Some 0) None eq_refl).
Defined.

(** ** Mapped and combined annotations *)

Lemma count_le {A : Type} (f g : A -> bool) (xs : list A) :
  (forall x, x ∈ xs -> f x = true -> g x = true) -> count f xs <= count g xs.
Proof.
  induction xs as [|x rest IH]; intros Hfg; [done|].
  rewrite !count_cons.
  assert (count f rest <= count g rest) as Hrest.
  { apply IH. intros y Hy. apply Hfg. by right. }
  specialize (Hfg x (list_elem_of_here _ _)).
  destruct (f x), (g x); try lia.
Qed.

Lemma first_match_app (learnt more : list EDIRAnn) (ga : EDIRAnn) :
  first_match (learnt ++ more) ga
  = match first_match learnt ga with
    | Some la => Some la
    | None => first_match more ga
    end.
Proof.
  unfold first_match. induction learnt as [|la rest IH]; simpl; [done|].
  by destruct (String.eqb (label la) (label ga) && overlap la ga).
Qed.

(** X25. Validating the combined annotations never finds less than
    validating the mapped ones. The combined list is the mapped list
    followed by phenotype annotations, so a gold annotation that a mapped
    label matches is credited to the same label in both runs; per label
    the combined run counts at least as many true positives, at most as
    many false negatives, and the same total of the two. *)
Theorem validate_combined_finds_no_less (cr : CustomisedRecoginiser)
  (gold_anns : list EDIRAnn) (label2performance : gmap string LabelPerformance)
  (l : string) :
  (exists more, get_combined_anns cr = get_mapped_labels cr ++ more
     /\ forall ga la, first_match (get_mapped_labels cr) ga = Some la ->
                      first_match (get_combined_anns cr) ga = Some la)
  /\ tp_of (validate_mapped_performance cr gold_anns label2performance) l
     <= tp_of (validate_combined_performance cr gold_anns label2performance) l
  /\ fn_of (validate_combined_performance cr gold_anns label2performance) l
     <= fn_of (validate_mapped_performance cr gold_anns label2performance) l
  /\ tp_of (validate_combined_performance cr gold_anns label2performance) l
     + fn_of (validate_combined_performance cr gold_anns label2performance) l
     = tp_of (validate_mapped_performance cr gold_anns label2performance) l
       + fn_of (validate_mapped_performance cr gold_anns label2performance) l.
Proof.
  unfold validate_mapped_performance, validate_combined_performance, get_combined_anns.
  set (mapped := get_mapped_labels cr).
  set (more := filter _ (get_customised_phenotypes cr)).
  assert (forall ga, has_match mapped ga = true -> has_match (mapped ++ more) ga = true)
    as Hmono.
  { intros ga. unfold has_match. rewrite first_match_app.
    by destruct (first_match mapped ga). }
  split.
  { exists more. split; [done|]. intros ga la Hla. by rewrite first_match_app, Hla. }
  destruct (validate_counters gold_anns mapped label2performance l) as (-> & -> & _).
  destruct (validate_counters gold_anns (mapped ++ more) label2performance l)
    as (-> & -> & _).
  pose proof (count_split (fun ga => String.eqb (label ga) l) (has_match mapped) gold_anns)
    as Hm.
  pose proof (count_split (fun ga => String.eqb (label ga) l) (has_match (mapped ++ more))
                gold_anns) as Hc.
  simpl in Hm, Hc.
  assert (count (fun ga => String.eqb (label ga) l && has_match mapped ga) gold_anns
          <= count (fun ga => String.eqb (label ga) l && has_match (mapped ++ more) ga)
               gold_anns) as Hle.
  { apply count_le. intros ga _. rewrite !andb_true_iff. intros [Hl Hh].
    split; [done|by apply Hmono]. }
  lia.
Qed.

(** ** The counts of the collection pass *)

Lemma remove_first_length {A : Type} `{EqDecision A} (x : A) (xs : list A) :
  in_list x xs = true -> S (length (remove_first x xs)) = length xs.
Proof.
  unfold in_list. intros Hin. apply bool_decide_eq_true in Hin.
  induction xs as [|y rest IH]; [by apply elem_of_nil in Hin|]. simpl.
  destruct (decide (y = x)) as [->|Hne]; [done|]. simpl. f_equal. apply IH.
  apply elem_of_cons in Hin as [->|Hin]; done.
Qed.

(** Every true positive that the loop over the gold entities counts
    takes one id out of [not_matched_gds]. *)
Lemma tfidf_match_loop_counts (label_ : string) (a : Mention) (gold : list EDIRAnn)
  (st : bool * Z * list ann_id) :
  let r := fold_left (tfidf_match_step label_ a) gold st in
  r.1.2 + Z.of_nat (length r.2) = st.1.2 + Z.of_nat (length st.2) /\ st.1.2 <= r.1.2.
Proof.
  revert st. induction gold as [|g rest IH]; intros [[matched tp] nm]; simpl; [lia|].
  destruct (IH (tfidf_match_step label_ a (matched, tp, nm) g)) as [Hsum Hle].
  simpl in *. unfold tfidf_match_step in *.
  destruct (in_list (id g) nm) eqn:Hin; [|done].
  destruct (overlap g a && String.eqb (label g) label_); [|done].
  apply remove_first_length in Hin. simpl in *. lia.
Qed.

Lemma add_context_dimension_label (value : string) (tp fp : option bool) (m m' : LabelModel) :
  add_context_dimension value tp fp m = Ok m' -> lm_label m' = lm_label m.
Proof.
  unfold add_context_dimension. destruct (negb _); simpl.
  - by intros [= <-].
  - destruct (label2freq m !! lower value); simpl; [|done]. by intros [= <-].
Qed.

Lemma add_label_dimension_label (value : string) (tp fp : option bool) (m : LabelModel) :
  lm_label (add_label_dimension value tp fp m) = lm_label m.
Proof. unfold add_label_dimension. by destruct (negb _). Qed.

Lemma tfidf_ann_step_counts (cr : CustomisedRecoginiser) (gold : list EDIRAnn)
  (st st' : LabelModel * Z * Z * list ann_id) (a : Mention) :
  tfidf_ann_step cr gold st a = Ok st' ->
  lm_label st'.1.1.1 = lm_label st.1.1.1
  /\ st'.1.1.2 + Z.of_nat (length st'.2) = st.1.1.2 + Z.of_nat (length st.2)
  /\ st.1.1.2 <= st'.1.1.2 /\ st.1.2 <= st'.1.2.
Proof.
  destruct st as [[[m tp] fp] nm]. unfold tfidf_ann_step.
  unfold add_label_dimension_by_annotation. rewrite add_label_dimension_label.
  destruct (polarity_differs _ a).
  { intros [= <-]. simpl. rewrite add_label_dimension_label. split; [done|lia]. }
  pose proof (tfidf_match_loop_counts (lm_label m) a gold (false, tp, nm)) as Hloop.
  destruct (fold_left _ gold _) as [[matched tp1] nm1]. simpl in Hloop.
  destruct (get_prior_anns cr a) as [sanns|e]; simpl; [|done].
  destruct (for_each _ (context_of sanns) _) as [m2|e] eqn:E; simpl; [|done].
  intros [= <-]. simpl.
  apply (for_each_invariant (fun s => lm_label s = lm_label m)) in E.
  - split; [done|]. destruct matched; simpl; lia.
  - intros s c s' Hs Hadd. apply add_context_dimension_label in Hadd. congruence.
  - destruct (collect_cui_labels_fields (umls sanns)
                (add_label_dimension (get_ann_dim_label a false) None None m))
      as (_ & _ & _ & ->).
    apply add_label_dimension_label.
Qed.

Lemma collect_tfidf_doc_counts (cm : Concept2Mapping) (st st' : LabelModel * Z * Z)
  (d : Document) :
  collect_tfidf_doc cm st d = Ok st' ->
  lm_label st'.1.1 = lm_label st.1.1
  /\ st.1.2 <= st'.1.2 <= st.1.2 + gold_with_label (lm_label st.1.1) d
  /\ st.2 <= st'.2.
Proof.
  destruct st as [[m tp] fp]. unfold collect_tfidf_doc, gold_with_label. simpl.
  destruct (doc_gold d) as [gd|]; [|intros [= <-]; simpl; split; [done|lia]].
  destruct (get_ess_entities gd) as [gold|e]; simpl; [|done].
  destruct (for_each _ _ _) as [[[[m2 tp2] fp2] nm2]|e] eqn:E; simpl; [|done].
  intros [= <-]. simpl.
  apply (for_each_invariant
           (fun s => lm_label s.1.1.1 = lm_label m
                     /\ s.1.1.2 + Z.of_nat (length s.2)
                        = tp + Z.of_nat (length (gold_ids (lm_label m) gold))
                     /\ tp <= s.1.1.2 /\ fp <= s.1.2)) in E.
  - simpl in E. split; [tauto|lia].
  - intros s x s' (Hl & Hsum & Htp & Hfp) Hstep.
    apply tfidf_ann_step_counts in Hstep as (Hl' & Hsum' & Htp' & Hfp').
    split; [congruence|]. lia.
  - simpl. split; [done|lia].
Qed.

Lemma collect_tfidf_loop_counts (cm : Concept2Mapping) (ann_dir : list Document)
  (st st' : LabelModel * Z * Z) :
  for_each (collect_tfidf_doc cm) ann_dir st = Ok st' ->
  lm_label st'.1.1 = lm_label st.1.1
  /\ st.1.2 <= st'.1.2 <= st.1.2 + gold_total (lm_label st.1.1) ann_dir
  /\ st.2 <= st'.2.
Proof.
  revert st. induction ann_dir as [|d rest IH]; intros st; simpl.
  - intros [= <-]. split; [done|lia].
  - destruct (collect_tfidf_doc cm st d) as [st1|e] eqn:E; simpl; [|done].
    intros Hrest. apply collect_tfidf_doc_counts in E as (Hl & Htp & Hfp).
    apply IH in Hrest as (Hl' & Htp' & Hfp'). rewrite Hl in *.
    split; [congruence|]. lia.
Qed.

(** X26. The counts that [collect_tfidf_dimensions] stores in the
    model start from zero, whatever the model held: [tps] is not negative
    and is at most the number of gold entities of the model's label in the
    gold files of the directory, since every true positive uses up one gold
    entity of its document; [fps] is not negative; the label of the model
    is kept. *)
Theorem collect_tfidf_dimensions_counts (cm : Concept2Mapping) (ann_dir : list Document)
  (m m' : LabelModel) :
  collect_tfidf_dimensions cm ann_dir m = Ok m' ->
  lm_label m' = lm_label m
  /\ 0 <= tps m' <= gold_total (lm_label m) ann_dir
  /\ 0 <= fps m'.
Proof.
  unfold collect_tfidf_dimensions.
  destruct (for_each _ _ _) as [[[m2 tp2] fp2]|e] eqn:E; simpl; [|done].
  intros [= <-]. simpl.
  apply collect_tfidf_loop_counts in E. simpl in E. split; [tauto|lia].
Qed.

Lemma collect_tfidf_dimensions_counts_example :
  exists m',
    collect_tfidf_dimensions stroke_mapping [stroke_document] stroke_model = Ok m'
    /\ lm_label m' = lm_label stroke_model
    /\ 0 <= tps m' <= gold_total (lm_label stroke_model) [stroke_document]
    /\ 0 <= fps m'.
Proof.
  eexists. split; [by vm_compute|].
  apply (collect_tfidf_dimensions_counts stroke_mapping [stroke_document] stroke_model).
  by vm_compute.
Defined.

(** ** The model after a collection pass *)

Lemma add_context_dimension_indexed (value : string) (tp fp : option bool) (m : LabelModel) :
  context_indexed m ->
  exists m', add_context_dimension value tp fp m = Ok m'
    /\ context_indexed m' /\ lm_label m' = lm_label m.
Proof.
  intros Hm. unfold add_context_dimension, in_list.
  case_bool_decide as Hin; simpl.
  - apply Hm in Hin as Hsome. destruct Hsome as [n Hn]. rewrite Hn. simpl.
    eexists. split; [reflexivity|]. split; [|done]. unfold context_indexed. simpl.
    intros v. rewrite (Hm v). destruct (decide (v = lower value)) as [->|Hne].
    + rewrite lookup_insert_eq, Hn. split; by eexists.
    + by rewrite lookup_insert_ne.
  - eexists. split; [reflexivity|]. split; [|done]. unfold context_indexed. simpl.
    intros v. rewrite elem_of_app, list_elem_of_singleton, (Hm v).
    destruct (decide (v = lower value)) as [->|Hne].
    + rewrite lookup_insert_eq. split; [by eexists|by right].
    + rewrite lookup_insert_ne by done. split; [by intros [?|?]|by left].
Qed.

Lemma collect_cui_labels_indexed (us : list SemEHRAnn) (m : LabelModel) :
  context_indexed m ->
  context_indexed (collect_cui_labels us m)
  /\ lm_label (collect_cui_labels us m) = lm_label m.
Proof.
  unfold collect_cui_labels. revert m.
  induction us as [|u rest IH]; intros m Hm; simpl; [done|].
  apply (IH (with_cui2label (<[cui u := pref u]> (lm_cui2label m)) m)). exact Hm.
Qed.

Lemma add_label_dimension_indexed (value : string) (tp fp : option bool) (m : LabelModel) :
  context_indexed m -> context_indexed (add_label_dimension value tp fp m).
Proof. intros Hm. unfold add_label_dimension. by destruct (negb _). Qed.

Lemma add_context_loop_indexed (tp fp : option bool) (cs : list Mention)
  (m m' : LabelModel) :
  context_indexed m ->
  for_each (fun m c => add_context_dimension_by_annotation c tp fp m) cs m = Ok m' ->
  context_indexed m' /\ lm_label m' = lm_label m.
Proof.
  intros Hm Hloop.
  apply (for_each_invariant (fun s => context_indexed s /\ lm_label s = lm_label m))
    in Hloop; [done| |done].
  intros s c s' [Hs Hl]. unfold add_context_dimension_by_annotation.
  destruct (add_context_dimension_indexed (get_ann_dim_label c true) tp fp s Hs)
    as (s1 & -> & Hs1 & Hl1).
  intros [= <-]. split; [done|congruence].
Qed.

(** X27. The collection passes keep the model consistent. On a model
    whose list of context dimensions and frequency dict name the same
    dimensions, as a new model does, a pass of [collect_dimensions] or of
    [collect_tfidf_dimensions] that returns leaves a model of that kind
    again, with the same label: every dimension that the pass listed has
    its frequency, which is what [add_context_dimension] reads on a
    later call. *)
Theorem collection_passes_keep_model_indexed (cm : Concept2Mapping)
  (ann_dir : list Document) (m : LabelModel) :
  context_indexed m ->
  (forall m', collect_dimensions cm ann_dir m = Ok m' ->
              context_indexed m' /\ lm_label m' = lm_label m)
  /\ (forall m', collect_tfidf_dimensions cm ann_dir m = Ok m' ->
                 context_indexed m' /\ lm_label m' = lm_label m).
Proof.
  intros Hm. split.
  - intros m' Hpass. unfold collect_dimensions in Hpass.
    apply (for_each_invariant (fun s => context_indexed s /\ lm_label s = lm_label m))
      in Hpass; [done| |done].
    intros s d s' Hs Hdoc. unfold collect_dimensions_doc in Hdoc.
    apply (for_each_invariant (fun s => context_indexed s /\ lm_label s = lm_label m))
      in Hdoc; [done| |done].
    intros s1 a s2 [Hs1 Hl1]. unfold add_label_dimension_by_annotation.
    rewrite add_label_dimension_label.
    pose proof (add_label_dimension_indexed (get_ann_dim_label a false) None None s1 Hs1)
      as Hs2.
    destruct (polarity_differs _ a).
    { intros [= <-]. split; [done|]. by rewrite add_label_dimension_label. }
    destruct (get_same_sentence_anns _ a) as [sanns|]; [|done].
    intros Hctx.
    destruct (collect_cui_labels_indexed (umls sanns) _ Hs2) as [Hs3 Hl3].
    apply add_context_loop_indexed in Hctx as [Hs4 Hl4]; [|done].
    split; [done|]. rewrite Hl4, Hl3, add_label_dimension_label. done.
  - intros m' Hpass. unfold collect_tfidf_dimensions in Hpass.
    destruct (for_each (collect_tfidf_doc cm) ann_dir (m, 0, 0)) as [[[m1 tp1] fp1]|e]
      eqn:Edir; simpl in Hpass; [|done].
    injection Hpass as <-. simpl.
    apply (for_each_invariant
             (fun s : LabelModel * Z * Z =>
                context_indexed s.1.1 /\ lm_label s.1.1 = lm_label m)) in Edir;
      [done| |done].
    intros [[s tp] fp] d s' [Hs Hl]. simpl in Hs, Hl. unfold collect_tfidf_doc.
    destruct (doc_gold d) as [gd|]; [|by intros [= <-]].
    destruct (get_ess_entities gd) as [gold|e0]; simpl; [|done].
    destruct (for_each (tfidf_ann_step _ gold) _ _) as [[[[m2 tp2] fp2] nm2]|e2] eqn:Eanns;
      simpl; [|done].
    intros [= <-]. simpl.
    apply (for_each_invariant
             (fun st : LabelModel * Z * Z * list ann_id =>
                context_indexed st.1.1.1 /\ lm_label st.1.1.1 = lm_label m)) in Eanns;
      [done| |done].
    intros [[[s1 tp1'] fp1'] nm1] a st' [Hs1 Hl1]. simpl in Hs1, Hl1.
    unfold tfidf_ann_step, add_label_dimension_by_annotation.
    rewrite add_label_dimension_label.
    pose proof (add_label_dimension_indexed (get_ann_dim_label a false) None None s1 Hs1)
      as Hs2.
    destruct (polarity_differs _ a).
    { intros [= <-]. simpl. split; [done|]. by rewrite add_label_dimension_label. }
    destruct (fold_left _ gold _) as [[matched tp3] nm3].
    destruct (get_prior_anns _ a) as [sanns|e3]; simpl; [|done].
    destruct (collect_cui_labels_indexed (umls sanns) _ Hs2) as [Hs3 Hl3].
    destruct (for_each _ (context_of sanns) _) as [m4|e4] eqn:Ectx; simpl; [|done].
    apply add_context_loop_indexed in Ectx as [Hs4 Hl4]; [|done].
    intros [= <-]. simpl. split; [done|].
    rewrite Hl4, Hl3, add_label_dimension_label. done.
Qed.

(** Both passes on the stroke document, from a new model. *)
Lemma collection_passes_keep_model_indexed_example :
  context_indexed stroke_model
  /\ (exists m',
        collect_dimensions stroke_mapping [stroke_document] stroke_model = Ok m'
        /\ context_indexed m' /\ lm_label m' = lm_label stroke_model)
  /\ (exists m',
        collect_tfidf_dimensions stroke_mapping [stroke_document] stroke_model = Ok m'
        /\ context_indexed m' /\ lm_label m' = lm_label stroke_model).
Proof.
  split; [apply new_LabelModel_indexed|].
  pose proof (collection_passes_keep_model_indexed stroke_mapping [stroke_document]
                stroke_model (new_LabelModel_indexed "stroke" None)) as [Hfirst Hsecond].
  split.
  - eexists. split; [by vm_compute|]. apply Hfirst. by vm_compute.
  - eexists. split; [by vm_compute|]. apply Hsecond. by vm_compute.
Defined.
